(** * AES-128 (ZhaoShuai2332/aes): a shallow embedding of the Python sources

    The development follows the layout of the repository: one module per
    Python file.  Python [bytes] objects are lists of [Byte.byte]; the
    integers held in a state matrix are [N] (they always come from a
    [bytes] object or from a table, so they are never negative); a state is
    a list of rows.  Everything that can raise in Python returns a
    [result]. *)

From Stdlib Require Import NArith List Lia Bool Arith PeanoNat.
From Stdlib Require Import Strings.Byte.
From Stdlib Require Import Strings.Ascii.
From Stdlib Require Import Morphisms.
From AAC_tactics Require Import AAC.
Import ListNotations.

Set Implicit Arguments.

(** ** Python run-time behaviour used by the sources *)

Module Py.

(** The exceptions of the development.  The visible sources raise nothing
    themselves: [IndexError] and [ValueError] come from the interpreter
    (indexing out of range, [bytes()] of an integer above 255, unpacking).
    [InvalidKeyLength], [InvalidBlockLength] and [InvalidPadding] are the
    names of the documentation's error taxonomy. *)
Inductive error : Set :=
| IndexError
| ValueError
| InvalidKeyLength
| InvalidBlockLength
| InvalidPadding.

Inductive result (A : Type) : Type :=
| Ok (a : A)
| Err (e : error).

Arguments Ok {A} a.
Arguments Err {A} e.

Definition bind {A B : Type} (m : result A) (f : A -> result B) : result B :=
  match m with
  | Ok a => f a
  | Err e => Err e
  end.

Definition is_ok {A : Type} (m : result A) : bool :=
  match m with Ok _ => true | Err _ => false end.

Declare Scope py_scope.
Delimit Scope py_scope with py.
Notation "x <- m ;; k" := (bind m (fun x => k))
  (at level 61, m at next level, right associativity) : py_scope.
Local Open Scope py_scope.

(** [for x in l: acc.append(f x)] *)
Fixpoint mapM {A B : Type} (f : A -> result B) (l : list A) : result (list B) :=
  match l with
  | [] => Ok []
  | x :: t => y <- f x ;; ys <- mapM f t ;; Ok (y :: ys)
  end.

(** [for x in l: s = body(s, x)] *)
Fixpoint foldM {A S : Type} (body : S -> A -> result S) (l : list A) (s : S)
  : result S :=
  match l with
  | [] => Ok s
  | x :: t => s' <- body s x ;; foldM body t s'
  end.

(** [range(n)], [range(a, b)], [range(a, b, step)] with a positive step and
    [range(a, b, -1)]. *)
Definition range (n : nat) : list nat := seq 0 n.
Definition range2 (a b : nat) : list nat := seq a (b - a).
Definition range3 (a b step : nat) : list nat :=
  map (fun k => a + step * k)%nat (seq 0 ((b - a + step - 1) / step)).
Definition range_down (a b : nat) : list nat := rev (seq (b + 1) (a - b)).

(** [l[i]] for an index [i >= 0]. *)
Definition getitem {A : Type} (l : list A) (i : nat) : result A :=
  match nth_error l i with
  | Some x => Ok x
  | None => Err IndexError
  end.

(** [l[-k]] for [k > 0]: position [len(l) - k], [IndexError] when the list
    is shorter than [k]. *)
Definition getitem_neg {A : Type} (l : list A) (k : nat) : result A :=
  if (length l <? k)%nat then Err IndexError else getitem l (length l - k).

(** [l[i] = v] *)
Fixpoint setitem {A : Type} (l : list A) (i : nat) (v : A) : result (list A) :=
  match l, i with
  | [], _ => Err IndexError
  | _ :: t, O => Ok (v :: t)
  | x :: t, S i' => t' <- setitem t i' v ;; Ok (x :: t')
  end.

(** [m[row][col] = v] on a list of distinct row lists. *)
Definition setitem2 {A : Type} (m : list (list A)) (row col : nat) (v : A)
  : result (list (list A)) :=
  r <- getitem m row ;;
  r' <- setitem r col v ;;
  setitem m row r'.

(** Slices never raise; their bounds are clamped to the list. *)
Definition slice {A : Type} (l : list A) (i j : nat) : list A :=      (* l[i:j] *)
  firstn (j - i) (skipn i l).
Definition slice_from {A : Type} (l : list A) (i : nat) : list A :=   (* l[i:] *)
  skipn i l.
Definition slice_to {A : Type} (l : list A) (j : nat) : list A :=     (* l[:j] *)
  firstn j l.
Definition slice_from_neg {A : Type} (l : list A) (k : nat) : list A := (* l[-k:], k > 0 *)
  skipn (length l - k) l.
Definition slice_to_neg {A : Type} (l : list A) (k : nat) : list A := (* l[:-k], k > 0 *)
  firstn (length l - k) l.

(** [bytes(ints)]: every integer must be in [range(256)]. *)
Definition bytes : Type := list byte.
Definition to_byte (n : N) : result byte :=
  match Byte.of_N n with
  | Some b => Ok b
  | None => Err ValueError
  end.
Definition py_bytes (ints : list N) : result bytes := mapM to_byte ints.

End Py.

Import Py.
Local Open Scope py_scope.

(** A state matrix is a Python list of four rows of four integers. *)
Definition state : Type := list (list N).

(** ** encryption/mix_columns.py *)

Module MixColumns.

Definition xtime (a : N) : N :=
  if negb (N.land a 0x80 =? 0)%N
  then N.land (N.lxor (N.shiftl a 1) 0x1b) 0xff
  else N.land (N.shiftl a 1) 0xff.

(** The [while temp_b:] loop.  It runs once per binary digit of [temp_b],
    so it is written by recursion on those digits: the lowest digit is
    [temp_b & 1] and the remaining ones are [temp_b >> 1].
    [gf_mult_loop_eq] below states the loop in the source's own terms. *)
Fixpoint gf_mult_digits (result temp_a : N) (digits : positive) : N :=
  match digits with
  | xH => N.lxor result temp_a
  | xO rest => gf_mult_digits result (xtime temp_a) rest
  | xI rest => gf_mult_digits (N.lxor result temp_a) (xtime temp_a) rest
  end.

Definition gf_mult_loop (result temp_a temp_b : N) : N :=
  match temp_b with
  | N0 => result
  | Npos digits => gf_mult_digits result temp_a digits
  end.

Definition gf_mult (a b : N) : N := gf_mult_loop 0 a b.

(** [s0, s1, s2, s3 = column] raises [ValueError] unless the column has
    exactly four entries. *)
Definition mix_single_column (column : list N) : result (list N) :=
  match column with
  | [s0; s1; s2; s3] =>
      let r0 := N.lxor (N.lxor (N.lxor (gf_mult 0x02 s0) (gf_mult 0x03 s1)) s2) s3 in
      let r1 := N.lxor (N.lxor (N.lxor s0 (gf_mult 0x02 s1)) (gf_mult 0x03 s2)) s3 in
      let r2 := N.lxor (N.lxor (N.lxor s0 s1) (gf_mult 0x02 s2)) (gf_mult 0x03 s3) in
      let r3 := N.lxor (N.lxor (N.lxor (gf_mult 0x03 s0) s1) s2) (gf_mult 0x02 s3) in
      Ok [r0; r1; r2; r3]
  | _ => Err ValueError
  end.

Definition mix_columns (st : state) : result state :=
  foldM (fun result col =>
    column <- mapM (fun row => r <- getitem st row ;; getitem r col) (range 4) ;;
    new_column <- mix_single_column column ;;
    foldM (fun result row =>
             v <- getitem new_column row ;;
             setitem2 result row col v) (range 4) result)
    (range 4) (repeat (repeat 0%N 4) 4).

End MixColumns.

(** ** encryption/shift_rows.py *)

Module ShiftRows.

Definition shift_rows (st : state) : result state :=
  r0 <- getitem st 0 ;;
  r1 <- getitem st 1 ;;
  r2 <- getitem st 2 ;;
  r3 <- getitem st 3 ;;
  Ok [ slice_from r0 0;
       slice_from r1 1 ++ slice_to r1 1;
       slice_from r2 2 ++ slice_to r2 2;
       slice_from r3 3 ++ slice_to r3 3 ].

End ShiftRows.

(** ** decryption/add_round_key.py *)

Module AddRoundKey.

Definition add_round_key (st round_key : state) : result state :=
  mapM (fun i =>
    mapM (fun j =>
      si <- getitem st i ;;
      sij <- getitem si j ;;
      ki <- getitem round_key i ;;
      kij <- getitem ki j ;;
      Ok (N.lxor sij kij)) (range 4)) (range 4).

End AddRoundKey.

(** ** decryption/inv_shift_rows.py *)

Module InvShiftRows.

Definition inv_shift_rows (st : state) : result state :=
  r0 <- getitem st 0 ;;
  r1 <- getitem st 1 ;;
  r2 <- getitem st 2 ;;
  r3 <- getitem st 3 ;;
  Ok [ slice_from r0 0;
       slice_from_neg r1 1 ++ slice_to_neg r1 1;
       slice_from_neg r2 2 ++ slice_to_neg r2 2;
       slice_from_neg r3 3 ++ slice_to_neg r3 3 ].

End InvShiftRows.

(** ** decryption/inv_mix_columns.py *)

Module InvMixColumns.

(** The file carries its own copies of [xtime] and [gf_mult]. *)
Definition xtime (a : N) : N :=
  if negb (N.land a 0x80 =? 0)%N
  then N.land (N.lxor (N.shiftl a 1) 0x1b) 0xff
  else N.land (N.shiftl a 1) 0xff.

Fixpoint gf_mult_digits (result temp_a : N) (digits : positive) : N :=
  match digits with
  | xH => N.lxor result temp_a
  | xO rest => gf_mult_digits result (xtime temp_a) rest
  | xI rest => gf_mult_digits (N.lxor result temp_a) (xtime temp_a) rest
  end.

Definition gf_mult_loop (result temp_a temp_b : N) : N :=
  match temp_b with
  | N0 => result
  | Npos digits => gf_mult_digits result temp_a digits
  end.

Definition gf_mult (a b : N) : N := gf_mult_loop 0 a b.

Definition inv_mix_single_column (column : list N) : result (list N) :=
  match column with
  | [s0; s1; s2; s3] =>
      let r0 := N.lxor (N.lxor (N.lxor (gf_mult 0x0e s0) (gf_mult 0x0b s1))
                               (gf_mult 0x0d s2)) (gf_mult 0x09 s3) in
      let r1 := N.lxor (N.lxor (N.lxor (gf_mult 0x09 s0) (gf_mult 0x0e s1))
                               (gf_mult 0x0b s2)) (gf_mult 0x0d s3) in
      let r2 := N.lxor (N.lxor (N.lxor (gf_mult 0x0d s0) (gf_mult 0x09 s1))
                               (gf_mult 0x0e s2)) (gf_mult 0x0b s3) in
      let r3 := N.lxor (N.lxor (N.lxor (gf_mult 0x0b s0) (gf_mult 0x0d s1))
                               (gf_mult 0x09 s2)) (gf_mult 0x0e s3) in
      Ok [r0; r1; r2; r3]
  | _ => Err ValueError
  end.

Definition inv_mix_columns (st : state) : result state :=
  foldM (fun result col =>
    column <- mapM (fun row => r <- getitem st row ;; getitem r col) (range 4) ;;
    new_column <- inv_mix_single_column column ;;
    foldM (fun result row =>
             v <- getitem new_column row ;;
             setitem2 result row col v) (range 4) result)
    (range 4) (repeat (repeat 0%N 4) 4).

End InvMixColumns.

(** ** encryption/sub_bytes.py and decryption/inv_sub_bytes.py *)

Module SubBytes.

(** Modelled from the spec: encryption/sub_bytes.py (table [S_BOX] and
    function [sub_bytes]) is not among the sources.  The documentation
    fixes the table to the published FIPS-197 one and the function to
    "replace every byte via the forward S-box". *)
Definition S_BOX : list N := [
  0x63; 0x7c; 0x77; 0x7b; 0xf2; 0x6b; 0x6f; 0xc5; 0x30; 0x01; 0x67; 0x2b; 0xfe; 0xd7; 0xab; 0x76;
  0xca; 0x82; 0xc9; 0x7d; 0xfa; 0x59; 0x47; 0xf0; 0xad; 0xd4; 0xa2; 0xaf; 0x9c; 0xa4; 0x72; 0xc0;
  0xb7; 0xfd; 0x93; 0x26; 0x36; 0x3f; 0xf7; 0xcc; 0x34; 0xa5; 0xe5; 0xf1; 0x71; 0xd8; 0x31; 0x15;
  0x04; 0xc7; 0x23; 0xc3; 0x18; 0x96; 0x05; 0x9a; 0x07; 0x12; 0x80; 0xe2; 0xeb; 0x27; 0xb2; 0x75;
  0x09; 0x83; 0x2c; 0x1a; 0x1b; 0x6e; 0x5a; 0xa0; 0x52; 0x3b; 0xd6; 0xb3; 0x29; 0xe3; 0x2f; 0x84;
  0x53; 0xd1; 0x00; 0xed; 0x20; 0xfc; 0xb1; 0x5b; 0x6a; 0xcb; 0xbe; 0x39; 0x4a; 0x4c; 0x58; 0xcf;
  0xd0; 0xef; 0xaa; 0xfb; 0x43; 0x4d; 0x33; 0x85; 0x45; 0xf9; 0x02; 0x7f; 0x50; 0x3c; 0x9f; 0xa8;
  0x51; 0xa3; 0x40; 0x8f; 0x92; 0x9d; 0x38; 0xf5; 0xbc; 0xb6; 0xda; 0x21; 0x10; 0xff; 0xf3; 0xd2;
  0xcd; 0x0c; 0x13; 0xec; 0x5f; 0x97; 0x44; 0x17; 0xc4; 0xa7; 0x7e; 0x3d; 0x64; 0x5d; 0x19; 0x73;
  0x60; 0x81; 0x4f; 0xdc; 0x22; 0x2a; 0x90; 0x88; 0x46; 0xee; 0xb8; 0x14; 0xde; 0x5e; 0x0b; 0xdb;
  0xe0; 0x32; 0x3a; 0x0a; 0x49; 0x06; 0x24; 0x5c; 0xc2; 0xd3; 0xac; 0x62; 0x91; 0x95; 0xe4; 0x79;
  0xe7; 0xc8; 0x37; 0x6d; 0x8d; 0xd5; 0x4e; 0xa9; 0x6c; 0x56; 0xf4; 0xea; 0x65; 0x7a; 0xae; 0x08;
  0xba; 0x78; 0x25; 0x2e; 0x1c; 0xa6; 0xb4; 0xc6; 0xe8; 0xdd; 0x74; 0x1f; 0x4b; 0xbd; 0x8b; 0x8a;
  0x70; 0x3e; 0xb5; 0x66; 0x48; 0x03; 0xf6; 0x0e; 0x61; 0x35; 0x57; 0xb9; 0x86; 0xc1; 0x1d; 0x9e;
  0xe1; 0xf8; 0x98; 0x11; 0x69; 0xd9; 0x8e; 0x94; 0x9b; 0x1e; 0x87; 0xe9; 0xce; 0x55; 0x28; 0xdf;
  0x8c; 0xa1; 0x89; 0x0d; 0xbf; 0xe6; 0x42; 0x68; 0x41; 0x99; 0x2d; 0x0f; 0xb0; 0x54; 0xbb; 0x16]%N.

(** Modelled from the spec: see [S_BOX]. *)
Definition sub_bytes (st : state) : result state :=
  mapM (fun i =>
    mapM (fun j =>
      row <- getitem st i ;;
      b <- getitem row j ;;
      getitem S_BOX (N.to_nat b)) (range 4)) (range 4).

End SubBytes.

Module InvSubBytes.

(** Modelled from the spec: decryption/inv_sub_bytes.py (table
    [INV_S_BOX] and function [inv_sub_bytes]) is not among the sources.
    The documentation makes the table the exact inverse of the forward
    one. *)
Definition INV_S_BOX : list N := [
  0x52; 0x09; 0x6a; 0xd5; 0x30; 0x36; 0xa5; 0x38; 0xbf; 0x40; 0xa3; 0x9e; 0x81; 0xf3; 0xd7; 0xfb;
  0x7c; 0xe3; 0x39; 0x82; 0x9b; 0x2f; 0xff; 0x87; 0x34; 0x8e; 0x43; 0x44; 0xc4; 0xde; 0xe9; 0xcb;
  0x54; 0x7b; 0x94; 0x32; 0xa6; 0xc2; 0x23; 0x3d; 0xee; 0x4c; 0x95; 0x0b; 0x42; 0xfa; 0xc3; 0x4e;
  0x08; 0x2e; 0xa1; 0x66; 0x28; 0xd9; 0x24; 0xb2; 0x76; 0x5b; 0xa2; 0x49; 0x6d; 0x8b; 0xd1; 0x25;
  0x72; 0xf8; 0xf6; 0x64; 0x86; 0x68; 0x98; 0x16; 0xd4; 0xa4; 0x5c; 0xcc; 0x5d; 0x65; 0xb6; 0x92;
  0x6c; 0x70; 0x48; 0x50; 0xfd; 0xed; 0xb9; 0xda; 0x5e; 0x15; 0x46; 0x57; 0xa7; 0x8d; 0x9d; 0x84;
  0x90; 0xd8; 0xab; 0x00; 0x8c; 0xbc; 0xd3; 0x0a; 0xf7; 0xe4; 0x58; 0x05; 0xb8; 0xb3; 0x45; 0x06;
  0xd0; 0x2c; 0x1e; 0x8f; 0xca; 0x3f; 0x0f; 0x02; 0xc1; 0xaf; 0xbd; 0x03; 0x01; 0x13; 0x8a; 0x6b;
  0x3a; 0x91; 0x11; 0x41; 0x4f; 0x67; 0xdc; 0xea; 0x97; 0xf2; 0xcf; 0xce; 0xf0; 0xb4; 0xe6; 0x73;
  0x96; 0xac; 0x74; 0x22; 0xe7; 0xad; 0x35; 0x85; 0xe2; 0xf9; 0x37; 0xe8; 0x1c; 0x75; 0xdf; 0x6e;
  0x47; 0xf1; 0x1a; 0x71; 0x1d; 0x29; 0xc5; 0x89; 0x6f; 0xb7; 0x62; 0x0e; 0xaa; 0x18; 0xbe; 0x1b;
  0xfc; 0x56; 0x3e; 0x4b; 0xc6; 0xd2; 0x79; 0x20; 0x9a; 0xdb; 0xc0; 0xfe; 0x78; 0xcd; 0x5a; 0xf4;
  0x1f; 0xdd; 0xa8; 0x33; 0x88; 0x07; 0xc7; 0x31; 0xb1; 0x12; 0x10; 0x59; 0x27; 0x80; 0xec; 0x5f;
  0x60; 0x51; 0x7f; 0xa9; 0x19; 0xb5; 0x4a; 0x0d; 0x2d; 0xe5; 0x7a; 0x9f; 0x93; 0xc9; 0x9c; 0xef;
  0xa0; 0xe0; 0x3b; 0x4d; 0xae; 0x2a; 0xf5; 0xb0; 0xc8; 0xeb; 0xbb; 0x3c; 0x83; 0x53; 0x99; 0x61;
  0x17; 0x2b; 0x04; 0x7e; 0xba; 0x77; 0xd6; 0x26; 0xe1; 0x69; 0x14; 0x63; 0x55; 0x21; 0x0c; 0x7d]%N.

(** Modelled from the spec: see [INV_S_BOX]. *)
Definition inv_sub_bytes (st : state) : result state :=
  mapM (fun i =>
    mapM (fun j =>
      row <- getitem st i ;;
      b <- getitem row j ;;
      getitem INV_S_BOX (N.to_nat b)) (range 4)) (range 4).

End InvSubBytes.

(** ** encryption/add_round_key.py and encryption/key_expansion.py *)

Module EncAddRoundKey.

(** Modelled from the spec: encryption/add_round_key.py is not among the
    sources.  The documentation makes AddRoundKey the "bytewise XOR of
    State with a RoundKey ... identical operation in both directions",
    and decryption/add_round_key.py calls itself the same as the
    encryption one, so the loop of that file is taken over. *)
Definition add_round_key (st round_key : state) : result state :=
  mapM (fun i =>
    mapM (fun j =>
      si <- getitem st i ;;
      sij <- getitem si j ;;
      ki <- getitem round_key i ;;
      kij <- getitem ki j ;;
      Ok (N.lxor sij kij)) (range 4)) (range 4).

End EncAddRoundKey.

Module KeyExpansion.

(** A word of the key schedule: a column of four integers. *)
Definition word : Type := list N.

(** Modelled from the spec: encryption/key_expansion.py is not among the
    sources (decryption/key_expansion.py only re-exports its names
    [key_expansion], [S_BOX], [RCON], [rot_word], [sub_word],
    [xor_words]).  "RotWord cyclically left-rotates 4 bytes by one
    position." *)
Definition rot_word (w : word) : word := slice_from w 1 ++ slice_to w 1.

(** Modelled from the spec: "SubWord applies the S-box to each byte". *)
Definition sub_word (w : word) : result word :=
  mapM (fun b => getitem SubBytes.S_BOX (N.to_nat b)) w.

(** Modelled from the spec: the bytewise XOR of two words. *)
Definition xor_words (a b : word) : word :=
  map (fun xy => N.lxor (fst xy) (snd xy)) (combine a b).

(** Modelled from the spec: "Rcon is a precomputed table with
    Rcon[1] = 0x01000000 and each subsequent entry's leading byte doubled
    in GF(2^8)"; entry 0 is never read. *)
Definition RCON : list word := [
  [0x00; 0; 0; 0]; [0x01; 0; 0; 0]; [0x02; 0; 0; 0]; [0x04; 0; 0; 0];
  [0x08; 0; 0; 0]; [0x10; 0; 0; 0]; [0x20; 0; 0; 0]; [0x40; 0; 0; 0];
  [0x80; 0; 0; 0]; [0x1b; 0; 0; 0]; [0x36; 0; 0; 0] ]%N.

(** Modelled from the spec: one turn of the word loop, "for word index i
    from 4 to 43: temp = word[i-1]; if i mod 4 == 0,
    temp = SubWord(RotWord(temp)) XOR Rcon[i/4];
    word[i] = word[i-4] XOR temp". *)
Definition next_word (words : list word) (i : nat) : result (list word) :=
  temp <- getitem words (i - 1) ;;
  temp <- (if (i mod 4 =? 0)%nat
           then sw <- sub_word (rot_word temp) ;;
                rc <- getitem RCON (i / 4) ;;
                Ok (xor_words sw rc)
           else Ok temp) ;;
  prev <- getitem words (i - 4) ;;
  Ok (words ++ [xor_words prev temp]).

(** Modelled from the spec: "RoundKey r is Words [4r .. 4r+3] arranged as
    a State"; a word is a column of its round key. *)
Definition round_key (words : list word) (r : nat) : result state :=
  mapM (fun row =>
    mapM (fun col => w <- getitem words (4 * r + col) ;; getitem w row)
         (range 4)) (range 4).

(** Modelled from the spec: "Input: exactly 16 key bytes; fails with
    InvalidKeyLength otherwise.  Output: 44 Words (11 RoundKeys).  Words
    0-3 equal the key." *)
Definition key_expansion (key : bytes) : result (list state) :=
  if negb (length key =? 16)%nat then Err InvalidKeyLength else
  first <- mapM (fun i =>
             mapM (fun j => b <- getitem key (4 * i + j) ;; Ok (Byte.to_N b))
                  (range 4)) (range 4) ;;
  words <- foldM next_word (range2 4 44) first ;;
  mapM (round_key words) (range 11).

End KeyExpansion.

(** ** aes_encrypt.py *)

Module AesEncrypt.

Definition bytes_to_state (data : bytes) : result state :=
  mapM (fun row =>
    mapM (fun col => b <- getitem data (row + 4 * col) ;; Ok (Byte.to_N b))
         (range 4)) (range 4).

Definition state_to_bytes (st : state) : result bytes :=
  ints <- foldM (fun acc col =>
            foldM (fun acc row =>
                     r <- getitem st row ;;
                     v <- getitem r col ;;
                     Ok (acc ++ [v])) (range 4) acc) (range 4) [] ;;
  py_bytes ints.

Definition Nr : nat := 10.

(** The body of the [for round_num in range(1, Nr)] loop. *)
Definition round (round_keys : list state) (st : state) (round_num : nat)
  : result state :=
  st <- SubBytes.sub_bytes st ;;
  st <- ShiftRows.shift_rows st ;;
  st <- MixColumns.mix_columns st ;;
  k <- getitem round_keys round_num ;;
  EncAddRoundKey.add_round_key st k.

(** [verbose] only prints; the default [verbose=False] is modelled. *)
Definition encrypt_block (plaintext key : bytes) : result bytes :=
  round_keys <- KeyExpansion.key_expansion key ;;
  st <- bytes_to_state plaintext ;;
  k0 <- getitem round_keys 0 ;;
  st <- EncAddRoundKey.add_round_key st k0 ;;
  st <- foldM (round round_keys) (range2 1 Nr) st ;;
  st <- SubBytes.sub_bytes st ;;
  st <- ShiftRows.shift_rows st ;;
  k <- getitem round_keys Nr ;;
  st <- EncAddRoundKey.add_round_key st k ;;
  state_to_bytes st.

Definition block_size : nat := 16.

(** [padding_len] and [padded] of [encrypt]. *)
Definition padding_len (plaintext : bytes) : nat :=
  block_size - (length plaintext mod block_size).

Definition pad (plaintext : bytes) : result bytes :=
  tail <- py_bytes (repeat (N.of_nat (padding_len plaintext))
                           (padding_len plaintext)) ;;
  Ok (plaintext ++ tail).

(** The block loop of [encrypt]: [ciphertext += encrypt_block(block, key)]. *)
Definition encrypt_blocks (padded key : bytes) : result bytes :=
  foldM (fun ciphertext i =>
           let block := slice padded i (i + block_size) in
           c <- encrypt_block block key ;;
           Ok (ciphertext ++ c))
        (range3 0 (length padded) block_size) [].

Definition encrypt (plaintext key : bytes) : result bytes :=
  padded <- pad plaintext ;;
  encrypt_blocks padded key.

End AesEncrypt.

(** ** aes_decrypt.py *)

Module AesDecrypt.

Definition bytes_to_state (data : bytes) : result state :=
  mapM (fun row =>
    mapM (fun col => b <- getitem data (row + 4 * col) ;; Ok (Byte.to_N b))
         (range 4)) (range 4).

Definition state_to_bytes (st : state) : result bytes :=
  ints <- foldM (fun acc col =>
            foldM (fun acc row =>
                     r <- getitem st row ;;
                     v <- getitem r col ;;
                     Ok (acc ++ [v])) (range 4) acc) (range 4) [] ;;
  py_bytes ints.

Definition Nr : nat := 10.

(** The body of the [for round_num in range(Nr - 1, 0, -1)] loop. *)
Definition round (round_keys : list state) (st : state) (round_num : nat)
  : result state :=
  st <- InvShiftRows.inv_shift_rows st ;;
  st <- InvSubBytes.inv_sub_bytes st ;;
  k <- getitem round_keys round_num ;;
  st <- AddRoundKey.add_round_key st k ;;
  InvMixColumns.inv_mix_columns st.

(** decryption/key_expansion.py re-exports the encryption module's
    [key_expansion]. *)
Definition decrypt_block (ciphertext key : bytes) : result bytes :=
  round_keys <- KeyExpansion.key_expansion key ;;
  st <- bytes_to_state ciphertext ;;
  k <- getitem round_keys Nr ;;
  st <- AddRoundKey.add_round_key st k ;;
  st <- foldM (round round_keys) (range_down (Nr - 1) 0) st ;;
  st <- InvShiftRows.inv_shift_rows st ;;
  st <- InvSubBytes.inv_sub_bytes st ;;
  k0 <- getitem round_keys 0 ;;
  st <- AddRoundKey.add_round_key st k0 ;;
  state_to_bytes st.

Definition block_size : nat := 16.

(** The block loop of [decrypt]: [plaintext += decrypt_block(block, key)]. *)
Definition decrypt_blocks (ciphertext key : bytes) : result bytes :=
  foldM (fun plaintext i =>
           let block := slice ciphertext i (i + block_size) in
           p <- decrypt_block block key ;;
           Ok (plaintext ++ p))
        (range3 0 (length ciphertext) block_size) [].

(** The padding removal of [decrypt], on the buffer the loop produced:
    [plaintext[-1]], the range test, the [all(...)] over
    [plaintext[-padding_len:]] and the strip [plaintext[:-padding_len]].
    Nothing is done, and nothing is raised, when a test fails. *)
Definition remove_padding (plaintext : bytes) : result bytes :=
  last <- getitem_neg plaintext 1 ;;
  let padding_len := Byte.to_N last in
  if (0 <? padding_len)%N && (padding_len <=? N.of_nat block_size)%N then
    if forallb (fun b => (Byte.to_N b =? padding_len)%N)
               (slice_from_neg plaintext (N.to_nat padding_len))
    then Ok (slice_to_neg plaintext (N.to_nat padding_len))
    else Ok plaintext
  else Ok plaintext.

Definition decrypt (ciphertext key : bytes) : result bytes :=
  plaintext <- decrypt_blocks ciphertext key ;;
  remove_padding plaintext.

End AesDecrypt.

(** ** The FIPS-197 Appendix B vector of the [__main__] sections *)

Definition test_key : bytes :=
  [x2b; x7e; x15; x16; x28; xae; xd2; xa6; xab; xf7; x15; x88; x09; xcf; x4f; x3c]%byte.

Definition test_plaintext : bytes :=
  [x32; x43; xf6; xa8; x88; x5a; x30; x8d; x31; x31; x98; xa2; xe0; x37; x07; x34]%byte.

Definition test_ciphertext : bytes :=
  [x39; x25; x84; x1d; x02; xdc; x09; xfb; xdc; x11; x85; x97; x19; x6a; x0b; x32]%byte.


(** ** diff_aes/diff_analysis.py *)

Module DiffAnalysis.

Definition bytes_to_state (data : bytes) : result state :=
  mapM (fun row =>
    mapM (fun col => b <- getitem data (row + 4 * col) ;; Ok (Byte.to_N b))
         (range 4)) (range 4).

Definition xor_state (state1 state2 : state) : result state :=
  mapM (fun i =>
    mapM (fun j =>
      r1 <- getitem state1 i ;;
      v1 <- getitem r1 j ;;
      r2 <- getitem state2 i ;;
      v2 <- getitem r2 j ;;
      Ok (N.lxor v1 v2)) (range 4)) (range 4).

(** [for row in state: for byte in row: if byte != 0: count += 1] *)
Definition count_active_bytes (st : state) : nat :=
  fold_left (fun count row =>
    fold_left (fun count byte =>
                 if negb (byte =? 0)%N then count + 1 else count) row count)
    st 0.

(** A Python string, as the list of its characters. *)
Definition str : Type := list ascii.

(** [line = "  "], then [line += "* "] for an active byte and
    [line += ". "] for an inactive one; one line per row. *)
Definition visualize_diff_pattern (st : state) : list str :=
  map (fun row =>
         fold_left (fun line b =>
                      if negb (b =? 0)%N
                      then line ++ ["*"; " "]%char
                      else line ++ ["."; " "]%char)
                   row [" "; " "]%char) st.

End DiffAnalysis.

(** A matrix of four rows of four integers, of any size. *)
Definition is_4x4 (st : state) : bool :=
  (length st =? 4)%nat && forallb (fun r : list N => (length r =? 4)%nat) st.

(** Some entry of the matrix is not in [range(256)]. *)
Definition has_big_entry (st : state) : bool :=
  existsb (existsb (fun v => (255 <? v)%N)) st.

(** The 4x4 matrix holding [s] at row [r], column [c] and zero elsewhere:
    a difference confined to one byte. *)
Definition single_byte_state (r c : nat) (s : N) : state :=
  map (fun i => map (fun j => if (i =? r)%nat && (j =? c)%nat then s else 0%N)
                    (range 4)) (range 4).

(** The non-zero integers of a matrix, row after row. *)
Definition active_entries (st : state) : list N :=
  filter (fun v => negb (v =? 0)%N) (concat st).

(** The transform [f] turns the one-byte difference [s] at row [r], column
    [c] into exactly four active bytes (vacuous for [s = 0]). *)
Definition spreads_to_four (f : state -> result state) (r c : nat) (s : N) : bool :=
  (s =? 0)%N
  || match f (single_byte_state r c s) with
     | Ok out => (DiffAnalysis.count_active_bytes out =? 4)
     | Err _ => false
     end.

(** The number of stars in a line of the difference picture. *)
Definition stars (line : DiffAnalysis.str) : nat :=
  length (filter (fun ch => Ascii.eqb ch "*"%char) line).

(** ** Well-formed states and the predicates of the statements *)

Definition is_byte (n : N) : bool := (n <? 256)%N.

Definition is_row (r : list N) : bool :=
  (length r =? 4)%nat && forallb is_byte r.

(** A 4x4 matrix all of whose entries lie in 0..255. *)
Definition is_state (st : state) : bool :=
  (length st =? 4)%nat && forallb is_row st.

(** The call returned, and returned a well-formed state. *)
Definition ok_state (m : result state) : bool :=
  match m with
  | Ok st => is_state st
  | Err _ => false
  end.

(** Every integer of 0..255, for the facts that are checked value by value. *)
Definition all_bytes : list N := map N.of_nat (seq 0 256).

(** Table look-ups as total functions, for the statements only. *)
Definition sbox (b : N) : N := nth (N.to_nat b) SubBytes.S_BOX 0%N.
Definition inv_sbox (b : N) : N := nth (N.to_nat b) InvSubBytes.INV_S_BOX 0%N.

(** [g] undoes [f] on well-formed states, and [f] keeps them well formed. *)
Definition undoes (f g : state -> result state) : Prop :=
  forall st, is_state st = true ->
    exists st', f st = Ok st' /\ is_state st' = true /\ g st' = Ok st.

(** Sequencing of two fallible transforms. *)
Definition andthen (f g : state -> result state) (st : state) : result state :=
  x <- f st ;; g x.

(** SubBytes then ShiftRows, the part a round shares with the final round,
    and its inverse InvShiftRows then InvSubBytes. *)
Definition half : state -> result state :=
  andthen SubBytes.sub_bytes ShiftRows.shift_rows.
Definition unhalf : state -> result state :=
  andthen InvShiftRows.inv_shift_rows InvSubBytes.inv_sub_bytes.

(** The block loop shared by [encrypt] and [decrypt]: the buffer is cut at
    the offsets [range(0, len(data), 16)] and the images of the slices are
    concatenated. *)
Definition block_loop (f : bytes -> result bytes) (data : bytes) : result bytes :=
  foldM (fun acc i => c <- f (slice data i (i + 16)) ;; Ok (acc ++ c))
        (range3 0 (length data) 16) [].

(** The PKCS7 trailer in the documentation's words: the trailing byte [n],
    the last [n] bytes of the buffer, and the trailer being malformed when
    [n = 0], or [n > 16], or the last [n] bytes are not all equal to [n]. *)
Definition trailing_byte (buf : bytes) : N := Byte.to_N (last buf x00).

Definition last_bytes (n : nat) (buf : bytes) : bytes := rev (firstn n (rev buf)).

Definition trailer_malformed (buf : bytes) : bool :=
  let n := trailing_byte buf in
  (n =? 0)%N || (16 <? n)%N ||
  negb (forallb (fun b => (Byte.to_N b =? n)%N) (last_bytes (N.to_nat n) buf)).

(** The buffer without its last [n] bytes. *)
Definition strip_trailer (buf : bytes) : bytes :=
  rev (skipn (N.to_nat (trailing_byte buf)) (rev buf)).

(** Both column transforms walk the state in the same way; only the
    function applied to a column differs. *)
Definition columnwise (f : list N -> result (list N)) (st : state) : result state :=
  foldM (fun result col =>
    column <- mapM (fun row => r <- getitem st row ;; getitem r col) (range 4) ;;
    new_column <- f column ;;
    foldM (fun result row =>
             v <- getitem new_column row ;;
             setitem2 result row col v) (range 4) result)
    (range 4) (repeat (repeat 0%N 4) 4).

(** * Proofs *)

(** The checks of the [__main__] sections of the sources. *)
Example gf_mult_57_02 : MixColumns.gf_mult 0x57 0x02 = 0xae%N.
Proof. reflexivity. Qed.

Example gf_mult_57_03 : MixColumns.gf_mult 0x57 0x03 = 0xf9%N.
Proof. reflexivity. Qed.

Example gf_mult_57_13 : MixColumns.gf_mult 0x57 0x13 = 0xfe%N.
Proof. reflexivity. Qed.

Example range_rounds :
  range2 1 AesEncrypt.Nr = [1; 2; 3; 4; 5; 6; 7; 8; 9] /\
  range_down (AesDecrypt.Nr - 1) 0 = [9; 8; 7; 6; 5; 4; 3; 2; 1] /\
  range3 0 33 16 = [0; 16; 32].
Proof. repeat split. Qed.

Example shift_rows_main :
  ShiftRows.shift_rows
    [[0xd4; 0xe0; 0xb8; 0x1e]; [0x27; 0xbf; 0xb4; 0x41];
     [0x11; 0x98; 0x5d; 0x52]; [0xae; 0xf1; 0xe5; 0x30]]%N
  = Ok [[0xd4; 0xe0; 0xb8; 0x1e]; [0xbf; 0xb4; 0x41; 0x27];
        [0x5d; 0x52; 0x11; 0x98]; [0x30; 0xae; 0xf1; 0xe5]]%N.
Proof. reflexivity. Qed.

Example mix_columns_main :
  MixColumns.mix_columns
    [[0xd4; 0xe0; 0xb8; 0x1e]; [0xbf; 0xb4; 0x41; 0x27];
     [0x5d; 0x52; 0x11; 0x98]; [0x30; 0xae; 0xf1; 0xe5]]%N
  = Ok [[0x04; 0xe0; 0x48; 0x28]; [0x66; 0xcb; 0xf8; 0x06];
        [0x81; 0x19; 0xd3; 0x26]; [0xe5; 0x9a; 0x7a; 0x4c]]%N.
Proof. reflexivity. Qed.

(** The round-trip of the [__main__] section of aes_decrypt.py. *)
Example hello_round_trip :
  let message := [x48; x65; x6c; x6c; x6f; x2c; x20; x41;
                  x45; x53; x2d; x31; x32; x38; x21]%byte in
  let key := [x54; x68; x69; x73; x49; x73; x41; x53;
              x65; x63; x72; x65; x74; x4b; x65; x79]%byte in
  (c <- AesEncrypt.encrypt message key ;; AesDecrypt.decrypt c key) = Ok message.
Proof. vm_compute. reflexivity. Qed.

(** The modelled key schedule: every entry of [RCON] after the first two
    doubles the leading byte of the one before. *)
Example RCON_doubles :
  forallb (fun i => match nth_error KeyExpansion.RCON i,
                          nth_error KeyExpansion.RCON (S i) with
                    | Some (a :: _), Some (b :: _) => (MixColumns.xtime a =? b)%N
                    | _, _ => false
                    end) (seq 1 9) = true.
Proof. reflexivity. Qed.

(** Equations between XOR expressions, bit by bit. *)
Ltac xor_solve :=
  apply N.bits_inj; intros ?n; rewrite ?N.lxor_spec, ?N.bits_0;
  repeat match goal with
         | |- context [N.testbit ?x ?n] => destruct (N.testbit x n)
         end;
  reflexivity.

(** XOR is an associative and commutative operator with unit 0; the
    instances let the AC-rewriting tactics regroup long XOR sums. *)
#[local] Instance lxor_Associative : Associative eq N.lxor.
Proof. intros x y z. symmetry. apply N.lxor_assoc. Qed.

#[local] Instance lxor_Commutative : Commutative eq N.lxor.
Proof. intros x y. apply N.lxor_comm. Qed.

#[local] Instance lxor_Unit : Unit eq N.lxor 0%N.
Proof. split; intros x; [apply N.lxor_0_l | apply N.lxor_0_r]. Qed.

#[local] Instance lxor_Proper : Proper (eq ==> eq ==> eq) N.lxor.
Proof. intros a b -> c d ->. reflexivity. Qed.

Section ByteFacts.

Local Open Scope N_scope.

Lemma in_all_bytes (b : N) : b < 256 -> In b all_bytes.
Proof.
  intros Hb. unfold all_bytes.
  rewrite <- (N2Nat.id b). apply in_map. apply in_seq. lia.
Qed.

Lemma forall_bytes (P : N -> bool) :
  forallb P all_bytes = true -> forall b, b < 256 -> P b = true.
Proof.
  intros H b Hb. rewrite forallb_forall in H. apply H, in_all_bytes, Hb.
Qed.

Lemma is_byte_lt (b : N) : is_byte b = true <-> b < 256.
Proof. unfold is_byte. apply N.ltb_lt. Qed.

Lemma land_255_byte (a : N) : N.land a 0xff < 256.
Proof.
  change 0xff with (N.ones 8). rewrite N.land_ones.
  apply N.mod_lt. discriminate.
Qed.

Lemma byte_land_255 (a : N) : a < 256 -> N.land a 0xff = a.
Proof.
  intros Ha. change 0xff with (N.ones 8). rewrite N.land_ones.
  apply N.mod_small. exact Ha.
Qed.

Lemma lxor_byte (a b : N) : a < 256 -> b < 256 -> N.lxor a b < 256.
Proof.
  intros Ha Hb.
  assert (E : N.lxor a b = N.land (N.lxor a b) 0xff).
  { rewrite <- (byte_land_255 Ha), <- (byte_land_255 Hb) at 1.
    apply N.bits_inj. intros n.
    rewrite N.land_spec, !N.lxor_spec, !N.land_spec.
    destruct (N.testbit a n), (N.testbit b n), (N.testbit 0xff n); reflexivity. }
  rewrite E. apply land_255_byte.
Qed.

Lemma to_N_byte (b : byte) : Byte.to_N b < 256.
Proof. pose proof (Byte.to_N_bounded b). lia. Qed.

Lemma to_byte_to_N (b : byte) : to_byte (Byte.to_N b) = Ok b.
Proof. unfold to_byte. rewrite Byte.of_to_N. reflexivity. Qed.

Lemma to_byte_total (n : N) :
  n < 256 -> exists b, to_byte n = Ok b /\ Byte.to_N b = n.
Proof.
  intros Hn. unfold to_byte.
  destruct (Byte.of_N n) as [b|] eqn:E.
  - exists b. split; [reflexivity|]. apply Byte.to_of_N, E.
  - apply Byte.of_N_None_iff in E. lia.
Qed.

End ByteFacts.

Section Field.

Local Open Scope N_scope.
Import MixColumns.

Lemma xtime_byte (a : N) : xtime a < 256.
Proof.
  unfold xtime. destruct (negb _); apply land_255_byte.
Qed.

(** The recursion on binary digits is the source's [while] loop: one
    unfolding of the loop, in the source's operators. *)
Lemma gf_mult_loop_eq (result temp_a temp_b : N) :
  gf_mult_loop result temp_a temp_b =
  if temp_b =? 0 then result
  else gf_mult_loop
         (if negb (N.land temp_b 1 =? 0) then N.lxor result temp_a else result)
         (xtime temp_a) (N.shiftr temp_b 1).
Proof.
  destruct temp_b as [|[p|p|]]; reflexivity.
Qed.

Lemma inv_xtime_eq (a : N) : InvMixColumns.xtime a = xtime a.
Proof. reflexivity. Qed.

Lemma inv_gf_mult_eq (a b : N) : InvMixColumns.gf_mult a b = gf_mult a b.
Proof.
  unfold InvMixColumns.gf_mult, gf_mult.
  destruct b as [|p]; [reflexivity|]. simpl.
  generalize 0 as r. revert a.
  induction p; intros a r; simpl; auto.
Qed.

Lemma gf_mult_digits_byte (p : positive) :
  forall r a, r < 256 -> a < 256 -> gf_mult_digits r a p < 256.
Proof.
  induction p; intros r a Hr Ha; simpl.
  - apply IHp; [apply lxor_byte; assumption | apply xtime_byte].
  - apply IHp; [assumption | apply xtime_byte].
  - apply lxor_byte; assumption.
Qed.

Lemma gf_mult_byte (a b : N) : a < 256 -> gf_mult a b < 256.
Proof.
  intros Ha. unfold gf_mult, gf_mult_loop. destruct b.
  - lia.
  - apply gf_mult_digits_byte; [lia | exact Ha].
Qed.

(** The accumulator of the loop only collects XORs. *)
Lemma gf_mult_digits_acc (p : positive) :
  forall r a, gf_mult_digits r a p = N.lxor r (gf_mult_digits 0 a p).
Proof.
  induction p; intros r a; cbn [gf_mult_digits].
  - rewrite IHp, (IHp (N.lxor 0 a)). rewrite N.lxor_0_l, N.lxor_assoc. reflexivity.
  - apply IHp.
  - rewrite N.lxor_0_l. reflexivity.
Qed.

Lemma gf_mult_double (a n : N) : gf_mult a (N.double n) = gf_mult (xtime a) n.
Proof. destruct n; reflexivity. Qed.

Lemma gf_mult_succ_double (a n : N) :
  gf_mult a (N.succ_double n) = N.lxor a (gf_mult (xtime a) n).
Proof.
  destruct n as [|p]; unfold gf_mult; cbn [N.succ_double gf_mult_loop gf_mult_digits].
  - rewrite N.lxor_0_l, N.lxor_0_r. reflexivity.
  - rewrite gf_mult_digits_acc, N.lxor_0_l. reflexivity.
Qed.

Lemma gf_mult_xO (a : N) (p : positive) :
  gf_mult a (Npos p~0) = gf_mult (xtime a) (Npos p).
Proof. exact (gf_mult_double a (Npos p)). Qed.

Lemma gf_mult_xI (a : N) (p : positive) :
  gf_mult a (Npos p~1) = N.lxor a (gf_mult (xtime a) (Npos p)).
Proof. exact (gf_mult_succ_double a (Npos p)). Qed.

Lemma gf_mult_1 (a : N) : gf_mult a 1 = a.
Proof. unfold gf_mult. cbn [gf_mult_loop gf_mult_digits]. apply N.lxor_0_l. Qed.

Lemma gf_mult_0 (a : N) : gf_mult a 0 = 0.
Proof. reflexivity. Qed.

Lemma gf_mult_pos_lxor (p : positive) :
  forall q a, gf_mult a (Pos.lxor p q)
              = N.lxor (gf_mult a (Npos p)) (gf_mult a (Npos q)).
Proof.
  induction p as [p IHp|p IHp|]; intros [q|q|] a; cbn [Pos.lxor];
    rewrite ?gf_mult_double, ?gf_mult_succ_double, ?IHp,
            ?gf_mult_xO, ?gf_mult_xI, ?gf_mult_1, ?gf_mult_0;
    xor_solve.
Qed.

(** [gf_mult a] is linear in its second argument, the one the loop
    consumes digit by digit. *)
Lemma gf_mult_lxor (a x y : N) :
  gf_mult a (N.lxor x y) = N.lxor (gf_mult a x) (gf_mult a y).
Proof.
  destruct x as [|p], y as [|q]; cbn [N.lxor];
    rewrite ?gf_mult_0, ?N.lxor_0_l, ?N.lxor_0_r; try reflexivity.
  apply gf_mult_pos_lxor.
Qed.

End Field.

Section MixInverse.

Local Open Scope N_scope.
Import MixColumns.

Lemma forall_bytes_eq (f g : N -> N) :
  forallb (fun b => f b =? g b) all_bytes = true ->
  forall b, b < 256 -> f b = g b.
Proof.
  intros H b Hb. apply N.eqb_eq.
  exact (forall_bytes (fun b => f b =? g b) H Hb).
Qed.

(** The product of the inverse matrix with the forward one, entry by
    entry: the diagonal entry is the identity on bytes and the three
    others vanish.  Each is checked on the 256 byte values. *)
Lemma unmix_diag (s : N) : s < 256 ->
  N.lxor (N.lxor (N.lxor (gf_mult 0x0e (gf_mult 0x02 s)) (gf_mult 0x0b s))
                 (gf_mult 0x0d s)) (gf_mult 0x09 (gf_mult 0x03 s)) = s.
Proof.
  revert s.
  apply (forall_bytes_eq
           (fun s => N.lxor (N.lxor (N.lxor (gf_mult 0x0e (gf_mult 0x02 s))
                                            (gf_mult 0x0b s))
                                    (gf_mult 0x0d s))
                            (gf_mult 0x09 (gf_mult 0x03 s)))
           (fun s => s)).
  vm_compute. reflexivity.
Qed.

Lemma unmix_off1 (s : N) : s < 256 ->
  N.lxor (N.lxor (N.lxor (gf_mult 0x0e (gf_mult 0x03 s)) (gf_mult 0x0b (gf_mult 0x02 s)))
                 (gf_mult 0x0d s)) (gf_mult 0x09 s) = 0.
Proof.
  revert s.
  apply (forall_bytes_eq
           (fun s => N.lxor (N.lxor (N.lxor (gf_mult 0x0e (gf_mult 0x03 s))
                                            (gf_mult 0x0b (gf_mult 0x02 s)))
                                    (gf_mult 0x0d s))
                            (gf_mult 0x09 s))
           (fun _ => 0)).
  vm_compute. reflexivity.
Qed.

Lemma unmix_off2 (s : N) : s < 256 ->
  N.lxor (N.lxor (N.lxor (gf_mult 0x0e s) (gf_mult 0x0b (gf_mult 0x03 s)))
                 (gf_mult 0x0d (gf_mult 0x02 s))) (gf_mult 0x09 s) = 0.
Proof.
  revert s.
  apply (forall_bytes_eq
           (fun s => N.lxor (N.lxor (N.lxor (gf_mult 0x0e s)
                                            (gf_mult 0x0b (gf_mult 0x03 s)))
                                    (gf_mult 0x0d (gf_mult 0x02 s)))
                            (gf_mult 0x09 s))
           (fun _ => 0)).
  vm_compute. reflexivity.
Qed.

Lemma unmix_off3 (s : N) : s < 256 ->
  N.lxor (N.lxor (N.lxor (gf_mult 0x0e s) (gf_mult 0x0b s))
                 (gf_mult 0x0d (gf_mult 0x03 s))) (gf_mult 0x09 (gf_mult 0x02 s)) = 0.
Proof.
  revert s.
  apply (forall_bytes_eq
           (fun s => N.lxor (N.lxor (N.lxor (gf_mult 0x0e s) (gf_mult 0x0b s))
                                    (gf_mult 0x0d (gf_mult 0x03 s)))
                            (gf_mult 0x09 (gf_mult 0x02 s)))
           (fun _ => 0)).
  vm_compute. reflexivity.
Qed.

(** One column: the inverse transform undoes the forward one. *)
Lemma unmix_single_column (s0 s1 s2 s3 : N) :
  s0 < 256 -> s1 < 256 -> s2 < 256 -> s3 < 256 ->
  (c <- mix_single_column [s0; s1; s2; s3] ;;
   InvMixColumns.inv_mix_single_column c) = Ok [s0; s1; s2; s3].
Proof.
  intros H0 H1 H2 H3.
  pose proof (unmix_diag H0) as D0. pose proof (unmix_diag H1) as D1.
  pose proof (unmix_diag H2) as D2. pose proof (unmix_diag H3) as D3.
  pose proof (unmix_off1 H0) as A0. pose proof (unmix_off1 H1) as A1.
  pose proof (unmix_off1 H2) as A2. pose proof (unmix_off1 H3) as A3.
  pose proof (unmix_off2 H0) as B0. pose proof (unmix_off2 H1) as B1.
  pose proof (unmix_off2 H2) as B2. pose proof (unmix_off2 H3) as B3.
  pose proof (unmix_off3 H0) as C0. pose proof (unmix_off3 H1) as C1.
  pose proof (unmix_off3 H2) as C2. pose proof (unmix_off3 H3) as C3.
  cbn [mix_single_column bind InvMixColumns.inv_mix_single_column].
  rewrite !inv_gf_mult_eq, !gf_mult_lxor.
  f_equal. f_equal; [|f_equal; [|f_equal; [|f_equal]]].
  - aac_rewrite D0. aac_rewrite A1. aac_rewrite B2. aac_rewrite C3. aac_reflexivity.
  - aac_rewrite C0. aac_rewrite D1. aac_rewrite A2. aac_rewrite B3. aac_reflexivity.
  - aac_rewrite B0. aac_rewrite C1. aac_rewrite D2. aac_rewrite A3. aac_reflexivity.
  - aac_rewrite A0. aac_rewrite B1. aac_rewrite C2. aac_rewrite D3. aac_reflexivity.
Qed.

End MixInverse.

Section States.

Local Open Scope N_scope.

Lemma is_row_inv (r : list N) :
  is_row r = true ->
  exists a b c d, r = [a; b; c; d] /\ a < 256 /\ b < 256 /\ c < 256 /\ d < 256.
Proof.
  unfold is_row.
  destruct r as [|a [|b [|c [|d [|e r]]]]];
    cbn [length Nat.eqb forallb andb]; try discriminate.
  rewrite !andb_true_iff, !is_byte_lt. intros (Ha & Hb & Hc & Hd & _).
  exists a, b, c, d. auto.
Qed.

Lemma is_row_intro (a b c d : N) :
  a < 256 -> b < 256 -> c < 256 -> d < 256 -> is_row [a; b; c; d] = true.
Proof.
  intros Ha Hb Hc Hd. unfold is_row. cbn [length Nat.eqb forallb andb].
  rewrite !andb_true_iff, !is_byte_lt. auto.
Qed.

Lemma is_state_inv (st : state) :
  is_state st = true ->
  exists r0 r1 r2 r3, st = [r0; r1; r2; r3] /\
    is_row r0 = true /\ is_row r1 = true /\ is_row r2 = true /\ is_row r3 = true.
Proof.
  unfold is_state.
  destruct st as [|r0 [|r1 [|r2 [|r3 [|r4 st]]]]];
    cbn [length Nat.eqb forallb andb]; try discriminate.
  rewrite !andb_true_iff. intros (H0 & H1 & H2 & H3 & _).
  exists r0, r1, r2, r3. auto.
Qed.

Lemma is_state_intro (r0 r1 r2 r3 : list N) :
  is_row r0 = true -> is_row r1 = true -> is_row r2 = true -> is_row r3 = true ->
  is_state [r0; r1; r2; r3] = true.
Proof.
  intros H0 H1 H2 H3. unfold is_state. cbn [length Nat.eqb forallb andb].
  rewrite H0, H1, H2, H3. reflexivity.
Qed.

End States.

(** Replace a well-formed state by its sixteen entries and their bounds. *)
Ltac explode_state H :=
  let r0 := fresh "r" in let r1 := fresh "r" in
  let r2 := fresh "r" in let r3 := fresh "r" in
  let E := fresh "E" in
  let H0 := fresh "Hr" in let H1 := fresh "Hr" in
  let H2 := fresh "Hr" in let H3 := fresh "Hr" in
  destruct (is_state_inv _ H) as (r0 & r1 & r2 & r3 & E & H0 & H1 & H2 & H3);
  subst;
  destruct (is_row_inv _ H0) as (? & ? & ? & ? & -> & ? & ? & ? & ?);
  destruct (is_row_inv _ H1) as (? & ? & ? & ? & -> & ? & ? & ? & ?);
  destruct (is_row_inv _ H2) as (? & ? & ? & ? & -> & ? & ? & ? & ?);
  destruct (is_row_inv _ H3) as (? & ? & ? & ? & -> & ? & ? & ? & ?);
  clear H0 H1 H2 H3.

Ltac state_bounds tac :=
  apply is_state_intro; apply is_row_intro; tac.

Section Transforms.

Local Open Scope N_scope.

(** *** ShiftRows *)

Lemma shift_rows_undone : undoes ShiftRows.shift_rows InvShiftRows.inv_shift_rows.
Proof.
  intros st H. explode_state H.
  eexists. split; [reflexivity | split; [|reflexivity]].
  state_bounds assumption.
Qed.

Lemma inv_shift_rows_undone : undoes InvShiftRows.inv_shift_rows ShiftRows.shift_rows.
Proof.
  intros st H. explode_state H.
  eexists. split; [reflexivity | split; [|reflexivity]].
  state_bounds assumption.
Qed.

(** *** AddRoundKey *)

Lemma lxor_twice (a k : N) : N.lxor (N.lxor a k) k = a.
Proof. rewrite N.lxor_assoc, N.lxor_nilpotent. apply N.lxor_0_r. Qed.

Lemma add_round_key_undone (k : state) :
  is_state k = true ->
  undoes (fun st => EncAddRoundKey.add_round_key st k)
         (fun st => AddRoundKey.add_round_key st k).
Proof.
  intros Hk st H. explode_state H. explode_state Hk.
  eexists. split; [reflexivity | split].
  - state_bounds ltac:(apply lxor_byte; assumption).
  - cbv [AddRoundKey.add_round_key mapM range seq getitem nth_error bind].
    rewrite !lxor_twice. reflexivity.
Qed.

Lemma dec_add_round_key_undone (k : state) :
  is_state k = true ->
  undoes (fun st => AddRoundKey.add_round_key st k)
         (fun st => EncAddRoundKey.add_round_key st k).
Proof.
  intros Hk st H. explode_state H. explode_state Hk.
  eexists. split; [reflexivity | split].
  - state_bounds ltac:(apply lxor_byte; assumption).
  - cbv [EncAddRoundKey.add_round_key mapM range seq getitem nth_error bind].
    rewrite !lxor_twice. reflexivity.
Qed.

(** *** SubBytes *)

Lemma getitem_S_BOX (b : N) :
  b < 256 -> getitem SubBytes.S_BOX (N.to_nat b) = Ok (sbox b).
Proof.
  intros Hb.
  assert (H : (match getitem SubBytes.S_BOX (N.to_nat b) with
               | Ok v => v =? sbox b
               | Err _ => false
               end) = true).
  { revert b Hb. apply forall_bytes. vm_compute. reflexivity. }
  destruct (getitem SubBytes.S_BOX (N.to_nat b)); [|discriminate].
  apply N.eqb_eq in H. subst. reflexivity.
Qed.

Lemma getitem_INV_S_BOX (b : N) :
  b < 256 -> getitem InvSubBytes.INV_S_BOX (N.to_nat b) = Ok (inv_sbox b).
Proof.
  intros Hb.
  assert (H : (match getitem InvSubBytes.INV_S_BOX (N.to_nat b) with
               | Ok v => v =? inv_sbox b
               | Err _ => false
               end) = true).
  { revert b Hb. apply forall_bytes. vm_compute. reflexivity. }
  destruct (getitem InvSubBytes.INV_S_BOX (N.to_nat b)); [|discriminate].
  apply N.eqb_eq in H. subst. reflexivity.
Qed.

Lemma sbox_byte (b : N) : b < 256 -> sbox b < 256.
Proof.
  intros Hb. apply N.ltb_lt. revert b Hb.
  apply (forall_bytes (fun b => sbox b <? 256)). vm_compute. reflexivity.
Qed.

Lemma inv_sbox_byte (b : N) : b < 256 -> inv_sbox b < 256.
Proof.
  intros Hb. apply N.ltb_lt. revert b Hb.
  apply (forall_bytes (fun b => inv_sbox b <? 256)). vm_compute. reflexivity.
Qed.

(** The inverse table is the inverse of the forward one, on every byte. *)
Lemma inv_sbox_sbox (b : N) : b < 256 -> inv_sbox (sbox b) = b.
Proof.
  revert b. apply (forall_bytes_eq (fun b => inv_sbox (sbox b)) (fun b => b)).
  vm_compute. reflexivity.
Qed.

Lemma sbox_inv_sbox (b : N) : b < 256 -> sbox (inv_sbox b) = b.
Proof.
  revert b. apply (forall_bytes_eq (fun b => sbox (inv_sbox b)) (fun b => b)).
  vm_compute. reflexivity.
Qed.

Lemma sub_bytes_explicit (a0 a1 a2 a3 b0 b1 b2 b3 c0 c1 c2 c3 d0 d1 d2 d3 : N) :
  a0 < 256 -> a1 < 256 -> a2 < 256 -> a3 < 256 ->
  b0 < 256 -> b1 < 256 -> b2 < 256 -> b3 < 256 ->
  c0 < 256 -> c1 < 256 -> c2 < 256 -> c3 < 256 ->
  d0 < 256 -> d1 < 256 -> d2 < 256 -> d3 < 256 ->
  SubBytes.sub_bytes [[a0; a1; a2; a3]; [b0; b1; b2; b3];
                      [c0; c1; c2; c3]; [d0; d1; d2; d3]]
  = Ok [[sbox a0; sbox a1; sbox a2; sbox a3]; [sbox b0; sbox b1; sbox b2; sbox b3];
        [sbox c0; sbox c1; sbox c2; sbox c3]; [sbox d0; sbox d1; sbox d2; sbox d3]].
Proof.
  intros.
  unfold SubBytes.sub_bytes.
  set (look := getitem SubBytes.S_BOX).
  cbv [mapM range seq bind getitem nth_error].
  subst look. rewrite !getitem_S_BOX by assumption. reflexivity.
Qed.

Lemma inv_sub_bytes_explicit (a0 a1 a2 a3 b0 b1 b2 b3 c0 c1 c2 c3 d0 d1 d2 d3 : N) :
  a0 < 256 -> a1 < 256 -> a2 < 256 -> a3 < 256 ->
  b0 < 256 -> b1 < 256 -> b2 < 256 -> b3 < 256 ->
  c0 < 256 -> c1 < 256 -> c2 < 256 -> c3 < 256 ->
  d0 < 256 -> d1 < 256 -> d2 < 256 -> d3 < 256 ->
  InvSubBytes.inv_sub_bytes [[a0; a1; a2; a3]; [b0; b1; b2; b3];
                             [c0; c1; c2; c3]; [d0; d1; d2; d3]]
  = Ok [[inv_sbox a0; inv_sbox a1; inv_sbox a2; inv_sbox a3];
        [inv_sbox b0; inv_sbox b1; inv_sbox b2; inv_sbox b3];
        [inv_sbox c0; inv_sbox c1; inv_sbox c2; inv_sbox c3];
        [inv_sbox d0; inv_sbox d1; inv_sbox d2; inv_sbox d3]].
Proof.
  intros.
  unfold InvSubBytes.inv_sub_bytes.
  set (look := getitem InvSubBytes.INV_S_BOX).
  cbv [mapM range seq bind getitem nth_error].
  subst look. rewrite !getitem_INV_S_BOX by assumption. reflexivity.
Qed.

Lemma sub_bytes_undone : undoes SubBytes.sub_bytes InvSubBytes.inv_sub_bytes.
Proof.
  intros st H. explode_state H.
  eexists. split; [apply sub_bytes_explicit; assumption | split].
  - state_bounds ltac:(apply sbox_byte; assumption).
  - rewrite inv_sub_bytes_explicit by (apply sbox_byte; assumption).
    rewrite !inv_sbox_sbox by assumption. reflexivity.
Qed.

Lemma inv_sub_bytes_undone : undoes InvSubBytes.inv_sub_bytes SubBytes.sub_bytes.
Proof.
  intros st H. explode_state H.
  eexists. split; [apply inv_sub_bytes_explicit; assumption | split].
  - state_bounds ltac:(apply inv_sbox_byte; assumption).
  - rewrite sub_bytes_explicit by (apply inv_sbox_byte; assumption).
    rewrite !sbox_inv_sbox by assumption. reflexivity.
Qed.

(** *** MixColumns *)

Lemma mix_columns_columnwise (st : state) :
  MixColumns.mix_columns st = columnwise MixColumns.mix_single_column st.
Proof. reflexivity. Qed.

Lemma inv_mix_columns_columnwise (st : state) :
  InvMixColumns.inv_mix_columns st
  = columnwise InvMixColumns.inv_mix_single_column st.
Proof. reflexivity. Qed.

Lemma columnwise_explicit (f : list N -> result (list N))
      (a0 a1 a2 a3 b0 b1 b2 b3 c0 c1 c2 c3 d0 d1 d2 d3 : N)
      (x0 x1 x2 x3 y0 y1 y2 y3 z0 z1 z2 z3 w0 w1 w2 w3 : N) :
  f [a0; b0; c0; d0] = Ok [x0; y0; z0; w0] ->
  f [a1; b1; c1; d1] = Ok [x1; y1; z1; w1] ->
  f [a2; b2; c2; d2] = Ok [x2; y2; z2; w2] ->
  f [a3; b3; c3; d3] = Ok [x3; y3; z3; w3] ->
  columnwise f [[a0; a1; a2; a3]; [b0; b1; b2; b3];
                [c0; c1; c2; c3]; [d0; d1; d2; d3]]
  = Ok [[x0; x1; x2; x3]; [y0; y1; y2; y3];
        [z0; z1; z2; z3]; [w0; w1; w2; w3]].
Proof.
  intros E0 E1 E2 E3. unfold columnwise.
  cbv [range seq foldM].
  cbv [mapM bind getitem nth_error] in *.
  rewrite E0. cbv [setitem2 setitem bind getitem nth_error repeat].
  rewrite E1. cbv [setitem2 setitem bind getitem nth_error repeat].
  rewrite E2. cbv [setitem2 setitem bind getitem nth_error repeat].
  rewrite E3. reflexivity.
Qed.

(** One column of MixColumns on bytes: it returns four bytes, and the
    inverse column transform gives the column back. *)
Lemma mix_single_column_total (s0 s1 s2 s3 : N) :
  s0 < 256 -> s1 < 256 -> s2 < 256 -> s3 < 256 ->
  exists x y z w,
    MixColumns.mix_single_column [s0; s1; s2; s3] = Ok [x; y; z; w] /\
    (x < 256 /\ y < 256 /\ z < 256 /\ w < 256) /\
    InvMixColumns.inv_mix_single_column [x; y; z; w] = Ok [s0; s1; s2; s3].
Proof.
  intros H0 H1 H2 H3.
  pose proof (unmix_single_column H0 H1 H2 H3) as U.
  cbn [MixColumns.mix_single_column bind] in U.
  do 4 eexists. split; [reflexivity | split; [|exact U]].
  repeat split; repeat apply lxor_byte;
    first [assumption | apply gf_mult_byte; lia].
Qed.

Lemma inv_mix_single_column_total (s0 s1 s2 s3 : N) :
  s0 < 256 -> s1 < 256 -> s2 < 256 -> s3 < 256 ->
  exists x y z w,
    InvMixColumns.inv_mix_single_column [s0; s1; s2; s3] = Ok [x; y; z; w] /\
    (x < 256 /\ y < 256 /\ z < 256 /\ w < 256).
Proof.
  intros H0 H1 H2 H3.
  do 4 eexists. split; [reflexivity |].
  rewrite !inv_gf_mult_eq.
  repeat split; repeat apply lxor_byte; apply gf_mult_byte; lia.
Qed.

Lemma mix_columns_undone_explicit
      (a0 a1 a2 a3 b0 b1 b2 b3 c0 c1 c2 c3 d0 d1 d2 d3 : N) :
  a0 < 256 -> a1 < 256 -> a2 < 256 -> a3 < 256 ->
  b0 < 256 -> b1 < 256 -> b2 < 256 -> b3 < 256 ->
  c0 < 256 -> c1 < 256 -> c2 < 256 -> c3 < 256 ->
  d0 < 256 -> d1 < 256 -> d2 < 256 -> d3 < 256 ->
  let st := [[a0; a1; a2; a3]; [b0; b1; b2; b3];
             [c0; c1; c2; c3]; [d0; d1; d2; d3]] in
  exists st', MixColumns.mix_columns st = Ok st' /\ is_state st' = true /\
              InvMixColumns.inv_mix_columns st' = Ok st.
Proof.
  intros Ha0 Ha1 Ha2 Ha3 Hb0 Hb1 Hb2 Hb3 Hc0 Hc1 Hc2 Hc3 Hd0 Hd1 Hd2 Hd3 st.
  destruct (mix_single_column_total Ha0 Hb0 Hc0 Hd0)
    as (x0 & y0 & z0 & w0 & F0 & (? & ? & ? & ?) & G0).
  destruct (mix_single_column_total Ha1 Hb1 Hc1 Hd1)
    as (x1 & y1 & z1 & w1 & F1 & (? & ? & ? & ?) & G1).
  destruct (mix_single_column_total Ha2 Hb2 Hc2 Hd2)
    as (x2 & y2 & z2 & w2 & F2 & (? & ? & ? & ?) & G2).
  destruct (mix_single_column_total Ha3 Hb3 Hc3 Hd3)
    as (x3 & y3 & z3 & w3 & F3 & (? & ? & ? & ?) & G3).
  exists [[x0; x1; x2; x3]; [y0; y1; y2; y3]; [z0; z1; z2; z3]; [w0; w1; w2; w3]].
  split; [|split].
  - rewrite mix_columns_columnwise. apply columnwise_explicit; assumption.
  - state_bounds assumption.
  - rewrite inv_mix_columns_columnwise. apply columnwise_explicit; assumption.
Qed.

Lemma mix_columns_undone :
  undoes MixColumns.mix_columns InvMixColumns.inv_mix_columns.
Proof.
  intros st H. explode_state H.
  apply mix_columns_undone_explicit; assumption.
Qed.

Lemma inv_mix_columns_ok_explicit
      (a0 a1 a2 a3 b0 b1 b2 b3 c0 c1 c2 c3 d0 d1 d2 d3 : N) :
  a0 < 256 -> a1 < 256 -> a2 < 256 -> a3 < 256 ->
  b0 < 256 -> b1 < 256 -> b2 < 256 -> b3 < 256 ->
  c0 < 256 -> c1 < 256 -> c2 < 256 -> c3 < 256 ->
  d0 < 256 -> d1 < 256 -> d2 < 256 -> d3 < 256 ->
  ok_state (InvMixColumns.inv_mix_columns
              [[a0; a1; a2; a3]; [b0; b1; b2; b3];
               [c0; c1; c2; c3]; [d0; d1; d2; d3]]) = true.
Proof.
  intros Ha0 Ha1 Ha2 Ha3 Hb0 Hb1 Hb2 Hb3 Hc0 Hc1 Hc2 Hc3 Hd0 Hd1 Hd2 Hd3.
  destruct (inv_mix_single_column_total Ha0 Hb0 Hc0 Hd0)
    as (x0 & y0 & z0 & w0 & F0 & (? & ? & ? & ?)).
  destruct (inv_mix_single_column_total Ha1 Hb1 Hc1 Hd1)
    as (x1 & y1 & z1 & w1 & F1 & (? & ? & ? & ?)).
  destruct (inv_mix_single_column_total Ha2 Hb2 Hc2 Hd2)
    as (x2 & y2 & z2 & w2 & F2 & (? & ? & ? & ?)).
  destruct (inv_mix_single_column_total Ha3 Hb3 Hc3 Hd3)
    as (x3 & y3 & z3 & w3 & F3 & (? & ? & ? & ?)).
  rewrite inv_mix_columns_columnwise.
  rewrite (columnwise_explicit _ _ _ _ _ _ _ _ _ _ _ _ _ _ _ _ _ F0 F1 F2 F3).
  cbn [ok_state]. state_bounds assumption.
Qed.

Lemma inv_mix_columns_ok (st : state) :
  is_state st = true -> ok_state (InvMixColumns.inv_mix_columns st) = true.
Proof.
  intros H. explode_state H. apply inv_mix_columns_ok_explicit; assumption.
Qed.

Lemma undoes_ok (f g : state -> result state) (st : state) :
  undoes f g -> is_state st = true -> ok_state (f st) = true.
Proof.
  intros U H. destruct (U st H) as (st' & -> & H' & _). exact H'.
Qed.

Lemma undoes_andthen (f g f' g' : state -> result state) :
  undoes f g -> undoes f' g' -> undoes (andthen f f') (andthen g' g).
Proof.
  intros U U' st H. unfold andthen.
  destruct (U st H) as (s1 & -> & H1 & G1).
  destruct (U' s1 H1) as (s2 & E2 & H2 & G2).
  exists s2. cbn [bind]. rewrite E2, G2. cbn [bind]. auto.
Qed.

End Transforms.

Section BytesAndStates.

Local Open Scope N_scope.

Lemma dec_bytes_to_state_eq (data : bytes) :
  AesDecrypt.bytes_to_state data = AesEncrypt.bytes_to_state data.
Proof. reflexivity. Qed.

Lemma dec_state_to_bytes_eq (st : state) :
  AesDecrypt.state_to_bytes st = AesEncrypt.state_to_bytes st.
Proof. reflexivity. Qed.

(** A 16-byte block loads into a well-formed state, which stores back to
    the same block (column-major both ways). *)
Lemma bytes_to_state_total (data : bytes) :
  length data = 16%nat ->
  exists st, AesEncrypt.bytes_to_state data = Ok st /\ is_state st = true /\
             AesEncrypt.state_to_bytes st = Ok data.
Proof.
  intros L.
  do 16 (destruct data as [|? data]; [discriminate L|]).
  destruct data; [clear L | discriminate L].
  eexists. split; [reflexivity | split].
  - state_bounds ltac:(apply to_N_byte).
  - cbv [AesEncrypt.state_to_bytes foldM range seq getitem nth_error bind app
         py_bytes mapM].
    rewrite !to_byte_to_N. reflexivity.
Qed.

Lemma state_to_bytes_total (st : state) :
  is_state st = true ->
  exists data, AesEncrypt.state_to_bytes st = Ok data /\ length data = 16%nat /\
               AesEncrypt.bytes_to_state data = Ok st.
Proof.
  intros H. explode_state H.
  repeat match goal with
         | Hb : ?a < 256 |- _ =>
             let b := fresh "b" in
             destruct (to_byte_total Hb) as (b & _ & <-); clear Hb
         end.
  eexists. split; [|split].
  - cbv [AesEncrypt.state_to_bytes foldM range seq getitem nth_error bind app
         py_bytes mapM].
    rewrite !to_byte_to_N. reflexivity.
  - reflexivity.
  - reflexivity.
Qed.

End BytesAndStates.

Section KeySchedule.

Local Open Scope N_scope.
Import KeyExpansion.

Lemma getitem_lt {A : Type} (l : list A) (i : nat) :
  (i < length l)%nat -> exists x, getitem l i = Ok x /\ In x l.
Proof.
  intros Hi. unfold getitem.
  destruct (nth_error l i) as [x|] eqn:E.
  - exists x. split; [reflexivity | eapply nth_error_In; exact E].
  - apply nth_error_None in E. lia.
Qed.

Lemma mapM_total {A B : Type} (f : A -> result B) (P : B -> Prop) (l : list A) :
  (forall x, In x l -> exists y, f x = Ok y /\ P y) ->
  exists l', mapM f l = Ok l' /\ length l' = length l /\ Forall P l'.
Proof.
  induction l as [|x l IH]; intros H.
  - exists []. repeat split. constructor.
  - destruct (H x (or_introl eq_refl)) as (y & Ey & Py).
    destruct IH as (l' & El & Ll & Pl); [intros; apply H; right; assumption|].
    exists (y :: l'). cbn [mapM]. rewrite Ey, El. cbn [bind length].
    repeat split; [congruence | constructor; assumption].
Qed.

Lemma is_row_iff (r : list N) :
  is_row r = true <-> length r = 4%nat /\ Forall (fun b => b < 256) r.
Proof.
  unfold is_row. rewrite andb_true_iff, Nat.eqb_eq, forallb_forall, Forall_forall.
  split; intros (L & H); split; try exact L; intros b Hb;
    apply is_byte_lt, H, Hb.
Qed.

Lemma is_state_iff (st : state) :
  is_state st = true <-> length st = 4%nat /\ Forall (fun r => is_row r = true) st.
Proof.
  unfold is_state. rewrite andb_true_iff, Nat.eqb_eq, forallb_forall, Forall_forall.
  reflexivity.
Qed.

Lemma xor_words_row (u v : word) :
  is_row u = true -> is_row v = true -> is_row (xor_words u v) = true.
Proof.
  intros Hu Hv.
  destruct (is_row_inv _ Hu) as (? & ? & ? & ? & -> & ? & ? & ? & ?).
  destruct (is_row_inv _ Hv) as (? & ? & ? & ? & -> & ? & ? & ? & ?).
  apply is_row_intro; apply lxor_byte; assumption.
Qed.

Lemma sub_rot_word_row (w : word) :
  is_row w = true ->
  exists w', sub_word (rot_word w) = Ok w' /\ is_row w' = true.
Proof.
  intros Hw.
  destruct (is_row_inv _ Hw) as (a & b & c & d & -> & Ha & Hb & Hc & Hd).
  exists [sbox b; sbox c; sbox d; sbox a]. split.
  - cbv [rot_word slice_from slice_to skipn firstn app sub_word mapM].
    rewrite !getitem_S_BOX by assumption. reflexivity.
  - apply is_row_intro; apply sbox_byte; assumption.
Qed.

Lemma RCON_rows : Forall (fun w => is_row w = true) RCON.
Proof. apply Forall_forall, forallb_forall. reflexivity. Qed.

(** One turn of the word loop appends one well-formed word. *)
Lemma next_word_total (words : list word) (i : nat) :
  (4 <= i < 44)%nat -> length words = i ->
  Forall (fun w => is_row w = true) words ->
  exists w, next_word words i = Ok (words ++ [w]) /\ is_row w = true.
Proof.
  intros Hi L W. rewrite Forall_forall in W. unfold next_word.
  destruct (@getitem_lt _ words (i - 1)) as (temp & -> & Ht); [lia|].
  destruct (@getitem_lt _ words (i - 4)) as (prev & Ep & Hp); [lia|].
  cbn [bind].
  assert (T : exists t, (if (i mod 4 =? 0)%nat
                         then sw <- sub_word (rot_word temp) ;;
                              rc <- getitem RCON (i / 4) ;;
                              Ok (xor_words sw rc)
                         else Ok temp) = Ok t /\ is_row t = true).
  { destruct (i mod 4 =? 0)%nat.
    - destruct (@sub_rot_word_row temp (W _ Ht)) as (sw & -> & Hsw).
      destruct (@getitem_lt _ RCON (i / 4)) as (rc & -> & Hrc).
      { change (length RCON) with 11%nat.
        apply Nat.Div0.div_lt_upper_bound. lia. }
      exists (xor_words sw rc). split; [reflexivity|].
      apply xor_words_row; [exact Hsw|].
      pose proof RCON_rows as R. rewrite Forall_forall in R. apply R, Hrc.
    - exists temp. split; [reflexivity | apply W, Ht]. }
  destruct T as (t & -> & Ht'). cbn [bind]. rewrite Ep. cbn [bind].
  eexists. split; [reflexivity|].
  apply xor_words_row; [apply W, Hp | exact Ht'].
Qed.

Lemma next_word_loop (n : nat) :
  forall (i : nat) (words : list word),
    (4 <= i)%nat -> (i + n <= 44)%nat -> length words = i ->
    Forall (fun w => is_row w = true) words ->
    exists words', foldM next_word (seq i n) words = Ok words' /\
                   length words' = (i + n)%nat /\
                   Forall (fun w => is_row w = true) words'.
Proof.
  induction n as [|n IH]; intros i words Hi Hn L W.
  - exists words. cbn [seq foldM]. repeat split; [lia | exact W].
  - destruct (@next_word_total words i) as (w & E & Hw); [lia | exact L | exact W |].
    destruct (IH (S i) (words ++ [w])) as (words' & E' & L' & W').
    + lia.
    + lia.
    + rewrite length_app, L. cbn [length]. lia.
    + apply Forall_app. split; [exact W | constructor; [exact Hw | constructor]].
    + exists words'. cbn [seq foldM]. rewrite E. cbn [bind].
      repeat split; [exact E' | lia | exact W'].
Qed.

Lemma round_key_total (words : list word) (r : nat) :
  length words = 44%nat -> Forall (fun w => is_row w = true) words ->
  In r (range 11) ->
  exists k, round_key words r = Ok k /\ is_state k = true.
Proof.
  intros L W Hr. apply in_seq in Hr. rewrite Forall_forall in W.
  unfold round_key.
  destruct (@mapM_total nat (list N)
              (fun row => mapM (fun col => w <- getitem words (4 * r + col) ;;
                                           getitem w row) (range 4))
              (fun rw => is_row rw = true) (range 4)) as (k & E & Lk & Pk).
  { intros row Hrow. apply in_seq in Hrow.
    destruct (@mapM_total nat N
                (fun col => w <- getitem words (4 * r + col) ;; getitem w row)
                (fun b => b < 256) (range 4)) as (rw & E & Lr & Pr).
    { intros col Hcol. apply in_seq in Hcol.
      destruct (@getitem_lt _ words (4 * r + col)) as (w & -> & Hw); [lia|].
      cbn [bind]. pose proof (W _ Hw) as Rw. apply is_row_iff in Rw.
      destruct Rw as (Lw & Bw).
      destruct (@getitem_lt _ w row) as (b & -> & Hb); [lia|].
      exists b. split; [reflexivity|]. rewrite Forall_forall in Bw. apply Bw, Hb. }
    exists rw. split; [exact E|]. apply is_row_iff. split; [exact Lr | exact Pr]. }
  exists k. split; [exact E|]. apply is_state_iff. split; [exact Lk | exact Pk].
Qed.

(** The key schedule of a 16-byte key: eleven well-formed round keys. *)
Lemma key_expansion_total (key : bytes) :
  length key = 16%nat ->
  exists rks, key_expansion key = Ok rks /\ length rks = 11%nat /\
              Forall (fun k => is_state k = true) rks.
Proof.
  intros L. unfold key_expansion. rewrite L. cbn [Nat.eqb negb].
  do 16 (destruct key as [|? key]; [discriminate L|]).
  destruct key; [clear L | discriminate L].
  cbv [mapM range seq getitem nth_error bind Nat.add Nat.mul].
  fold (range 11).
  match goal with
  | |- context [foldM next_word _ ?first] =>
      destruct (@next_word_loop 40 4 first) as (words & E & Lw & W)
  end.
  - lia.
  - lia.
  - reflexivity.
  - repeat constructor; apply is_row_intro; apply to_N_byte.
  - change (range2 4 44) with (seq 4 40). rewrite E. cbn [bind].
    destruct (@mapM_total _ _ (round_key words) (fun k => is_state k = true)
                          (range 11)) as (rks & Er & Lr & Pr).
    + intros r Hr. apply round_key_total; assumption.
    + exists rks. repeat split; assumption.
Qed.

End KeySchedule.

Section BlockRoundTrip.

Lemma foldM_app {A S : Type} (body : S -> A -> result S) (l1 l2 : list A) (s : S) :
  foldM body (l1 ++ l2) s = (x <- foldM body l1 s ;; foldM body l2 x).
Proof.
  revert s. induction l1 as [|a l1 IH]; intros s; cbn [app foldM bind].
  - reflexivity.
  - destruct (body s a); cbn [bind]; [apply IH | reflexivity].
Qed.

Lemma half_undone : undoes half unhalf.
Proof. exact (undoes_andthen sub_bytes_undone shift_rows_undone). Qed.

Lemma enc_round_eq (rks : list state) (st : state) (r : nat) :
  AesEncrypt.round rks st r =
  (h <- half st ;; m <- MixColumns.mix_columns h ;;
   k <- getitem rks r ;; EncAddRoundKey.add_round_key m k).
Proof.
  unfold AesEncrypt.round, half, andthen.
  destruct (SubBytes.sub_bytes st); reflexivity.
Qed.

Lemma dec_round_eq (rks : list state) (h : state) (r : nat) :
  AesDecrypt.round rks h r =
  (st <- unhalf h ;; k <- getitem rks r ;;
   m <- AddRoundKey.add_round_key st k ;; InvMixColumns.inv_mix_columns m).
Proof.
  unfold AesDecrypt.round, unhalf, andthen.
  destruct (InvShiftRows.inv_shift_rows h); reflexivity.
Qed.

Variable rks : list state.
Hypothesis rks_ok : Forall (fun k => is_state k = true) rks.

Lemma round_key_lookup (r : nat) :
  (r < length rks)%nat -> exists k, getitem rks r = Ok k /\ is_state k = true.
Proof.
  intros Hr. destruct (@getitem_lt _ rks r Hr) as (k & E & Hk).
  exists k. split; [exact E|].
  rewrite Forall_forall in rks_ok. apply rks_ok, Hk.
Qed.

(** The decryption rounds, run over the round numbers in reverse, take
    the half-round image of the state the encryption rounds end in back
    to the half-round image of the state they started from. *)
Lemma rounds_undone (rs : list nat) :
  forall st h,
    Forall (fun r => r < length rks)%nat rs ->
    is_state st = true -> half st = Ok h ->
    exists st' h',
      foldM (AesEncrypt.round rks) rs st = Ok st' /\ is_state st' = true /\
      half st' = Ok h' /\
      foldM (AesDecrypt.round rks) (rev rs) h' = Ok h.
Proof.
  induction rs as [|r rs IH]; intros st h Hrs Hst Hh.
  - exists st, h. cbn [foldM rev]. auto.
  - inversion Hrs as [|? ? Hr Hrs']; subst.
    destruct (half_undone st Hst) as (h0 & Eh & Hh0 & Uh).
    rewrite Eh in Hh. injection Hh as <-.
    destruct (mix_columns_undone h0 Hh0) as (m & Em & Hm & Um).
    destruct (@round_key_lookup r Hr) as (k & Ek & Hk).
    destruct (@add_round_key_undone k Hk m Hm) as (s1 & Es & Hs1 & Us).
    destruct (half_undone s1 Hs1) as (h1 & Eh1 & Hh1 & Uh1).
    destruct (IH s1 h1 Hrs' Hs1 Eh1) as (st' & h' & E' & Hst' & Eh' & D').
    exists st', h'. repeat split; try assumption.
    + cbn [foldM]. rewrite enc_round_eq, Eh. cbn [bind].
      rewrite Em. cbn [bind]. rewrite Ek. cbn [bind]. rewrite Es. cbn [bind].
      exact E'.
    + cbn [rev]. rewrite foldM_app, D'. cbn [bind foldM].
      rewrite dec_round_eq, Uh1. cbn [bind]. rewrite Ek. cbn [bind].
      rewrite Us. cbn [bind]. rewrite Um. reflexivity.
Qed.

Lemma ok_state_inv (m : result state) :
  ok_state m = true -> exists st, m = Ok st /\ is_state st = true.
Proof.
  destruct m as [st|e]; cbn [ok_state]; [|discriminate].
  intros H. exists st. auto.
Qed.

(** The decryption rounds alone never fail on a well-formed state. *)
Lemma dec_rounds_total (rs : list nat) :
  forall h,
    Forall (fun r => r < length rks)%nat rs -> is_state h = true ->
    exists h', foldM (AesDecrypt.round rks) rs h = Ok h' /\ is_state h' = true.
Proof.
  induction rs as [|r rs IH]; intros h Hrs Hh.
  - exists h. cbn [foldM]. auto.
  - inversion Hrs as [|? ? Hr Hrs']; subst.
    destruct (undoes_andthen inv_shift_rows_undone inv_sub_bytes_undone h Hh)
      as (s1 & E1 & H1 & _).
    destruct (@round_key_lookup r Hr) as (k & Ek & Hk).
    destruct (@dec_add_round_key_undone k Hk s1 H1) as (m & Em & Hm & _).
    destruct (ok_state_inv _ (inv_mix_columns_ok m Hm)) as (h1 & Eh1 & Hh1).
    destruct (IH h1 Hrs' Hh1) as (h' & E' & Hh').
    exists h'. split; [|exact Hh'].
    cbn [foldM]. rewrite dec_round_eq. fold unhalf in E1. rewrite E1. cbn [bind].
    rewrite Ek. cbn [bind]. rewrite Em. cbn [bind]. rewrite Eh1. cbn [bind].
    exact E'.
Qed.

End BlockRoundTrip.

Section Blocks.

Lemma round_numbers_lt (rks : list state) :
  length rks = 11%nat ->
  Forall (fun r => r < length rks)%nat (range2 1 AesEncrypt.Nr).
Proof.
  intros L. rewrite L. apply Forall_forall. intros r Hr.
  apply in_seq in Hr. cbv [AesEncrypt.Nr] in Hr. lia.
Qed.

Lemma encrypt_block_eq (plaintext key : bytes) :
  AesEncrypt.encrypt_block plaintext key =
  (round_keys <- KeyExpansion.key_expansion key ;;
   st <- AesEncrypt.bytes_to_state plaintext ;;
   k0 <- getitem round_keys 0 ;;
   st <- EncAddRoundKey.add_round_key st k0 ;;
   st <- foldM (AesEncrypt.round round_keys) (range2 1 AesEncrypt.Nr) st ;;
   h <- half st ;;
   k <- getitem round_keys AesEncrypt.Nr ;;
   st <- EncAddRoundKey.add_round_key h k ;;
   AesEncrypt.state_to_bytes st).
Proof.
  unfold AesEncrypt.encrypt_block, half, andthen.
  destruct (KeyExpansion.key_expansion key) as [rks|]; [|reflexivity]. cbn [bind].
  destruct (AesEncrypt.bytes_to_state plaintext); [|reflexivity]. cbn [bind].
  destruct (getitem rks 0); [|reflexivity]. cbn [bind].
  destruct (EncAddRoundKey.add_round_key _ _); [|reflexivity]. cbn [bind].
  destruct (foldM _ _ _); [|reflexivity]. cbn [bind].
  destruct (SubBytes.sub_bytes _); reflexivity.
Qed.

Lemma decrypt_block_eq (ciphertext key : bytes) :
  AesDecrypt.decrypt_block ciphertext key =
  (round_keys <- KeyExpansion.key_expansion key ;;
   st <- AesEncrypt.bytes_to_state ciphertext ;;
   k <- getitem round_keys AesEncrypt.Nr ;;
   h <- AddRoundKey.add_round_key st k ;;
   h <- foldM (AesDecrypt.round round_keys) (rev (range2 1 AesEncrypt.Nr)) h ;;
   st <- unhalf h ;;
   k0 <- getitem round_keys 0 ;;
   st <- AddRoundKey.add_round_key st k0 ;;
   AesEncrypt.state_to_bytes st).
Proof.
  unfold AesDecrypt.decrypt_block, unhalf, andthen.
  change (range_down (AesDecrypt.Nr - 1) 0) with (rev (range2 1 AesEncrypt.Nr)).
  change AesDecrypt.Nr with AesEncrypt.Nr.
  change AesDecrypt.bytes_to_state with AesEncrypt.bytes_to_state.
  change AesDecrypt.state_to_bytes with AesEncrypt.state_to_bytes.
  destruct (KeyExpansion.key_expansion key) as [rks|]; [|reflexivity]. cbn [bind].
  destruct (AesEncrypt.bytes_to_state ciphertext); [|reflexivity]. cbn [bind].
  destruct (getitem rks AesEncrypt.Nr); [|reflexivity]. cbn [bind].
  destruct (AddRoundKey.add_round_key _ _); [|reflexivity]. cbn [bind].
  destruct (foldM _ _ _); [|reflexivity]. cbn [bind].
  destruct (InvShiftRows.inv_shift_rows _); reflexivity.
Qed.

(** Block round trip: a 16-byte block encrypts to a 16-byte block that
    decrypts to the original, under any 16-byte key. *)
Lemma encrypt_block_inverted (plaintext key : bytes) :
  length plaintext = 16%nat -> length key = 16%nat ->
  exists c, AesEncrypt.encrypt_block plaintext key = Ok c /\
            length c = 16%nat /\
            AesDecrypt.decrypt_block c key = Ok plaintext.
Proof.
  intros LP LK.
  destruct (key_expansion_total key LK) as (rks & EK & Lr & W).
  destruct (bytes_to_state_total plaintext LP) as (st0 & Eb & H0 & Sb).
  destruct (@round_key_lookup rks W 0%nat) as (k0 & Ek0 & Hk0); [lia|].
  destruct (@round_key_lookup rks W AesEncrypt.Nr) as (k10 & Ek10 & Hk10);
    [rewrite Lr; cbv [AesEncrypt.Nr]; lia|].
  destruct (@add_round_key_undone k0 Hk0 st0 H0) as (s0 & Es0 & Hs0 & Us0).
  destruct (half_undone s0 Hs0) as (h0 & Eh0 & Hh0 & Uh0).
  destruct (@rounds_undone rks W (range2 1 AesEncrypt.Nr) s0 h0
                           (round_numbers_lt rks Lr) Hs0 Eh0)
    as (s9 & h9 & Er & Hs9 & Eh9 & Dr).
  destruct (half_undone s9 Hs9) as (h9' & Eh9' & Hh9 & _).
  rewrite Eh9 in Eh9'. injection Eh9' as <-.
  destruct (@add_round_key_undone k10 Hk10 h9 Hh9) as (c & Ec & Hc & Uc).
  destruct (state_to_bytes_total c Hc) as (cb & Ecb & Lcb & Bcb).
  exists cb. split; [|split; [exact Lcb|]].
  - rewrite encrypt_block_eq, EK. cbn [bind]. rewrite Eb. cbn [bind].
    rewrite Ek0. cbn [bind]. rewrite Es0. cbn [bind]. rewrite Er. cbn [bind].
    rewrite Eh9. cbn [bind]. rewrite Ek10. cbn [bind]. rewrite Ec. cbn [bind].
    exact Ecb.
  - rewrite decrypt_block_eq, EK. cbn [bind]. rewrite Bcb. cbn [bind].
    rewrite Ek10. cbn [bind]. rewrite Uc. cbn [bind]. rewrite Dr. cbn [bind].
    rewrite Uh0. cbn [bind]. rewrite Ek0. cbn [bind]. rewrite Us0. cbn [bind].
    exact Sb.
Qed.

(** Decryption of any 16-byte block under a 16-byte key returns 16 bytes. *)
Lemma decrypt_block_total (ciphertext key : bytes) :
  length ciphertext = 16%nat -> length key = 16%nat ->
  exists p, AesDecrypt.decrypt_block ciphertext key = Ok p /\ length p = 16%nat.
Proof.
  intros LC LK.
  destruct (key_expansion_total key LK) as (rks & EK & Lr & W).
  destruct (bytes_to_state_total ciphertext LC) as (c & Eb & Hc & _).
  destruct (@round_key_lookup rks W 0%nat) as (k0 & Ek0 & Hk0); [lia|].
  destruct (@round_key_lookup rks W AesEncrypt.Nr) as (k10 & Ek10 & Hk10);
    [rewrite Lr; cbv [AesEncrypt.Nr]; lia|].
  destruct (@dec_add_round_key_undone k10 Hk10 c Hc) as (h9 & E9 & H9 & _).
  destruct (@dec_rounds_total rks W (rev (range2 1 AesEncrypt.Nr)) h9)
    as (h0 & Er & Hh0); [|exact H9|].
  { apply Forall_rev, round_numbers_lt, Lr. }
  destruct (undoes_andthen inv_shift_rows_undone inv_sub_bytes_undone h0 Hh0)
    as (s0 & Es0 & Hs0 & _). fold unhalf in Es0.
  destruct (@dec_add_round_key_undone k0 Hk0 s0 Hs0) as (st & Est & Hst & _).
  destruct (state_to_bytes_total st Hst) as (p & Ep & Lp & _).
  exists p. split; [|exact Lp].
  rewrite decrypt_block_eq, EK. cbn [bind]. rewrite Eb. cbn [bind].
  rewrite Ek10. cbn [bind]. rewrite E9. cbn [bind]. rewrite Er. cbn [bind].
  rewrite Es0. cbn [bind]. rewrite Ek0. cbn [bind]. rewrite Est. cbn [bind].
  exact Ep.
Qed.

End Blocks.

Section Messages.

(** *** Cutting a buffer into 16-byte blocks *)

Lemma blocks_of (n : nat) :
  forall data : bytes,
    length data = 16 * n ->
    exists blocks, data = concat blocks /\ length blocks = n /\
                   Forall (fun b : bytes => length b = 16) blocks.
Proof.
  induction n as [|n IH]; intros data L.
  - exists []. destruct data; [|discriminate L]. repeat split. constructor.
  - destruct (IH (skipn 16 data)) as (blocks & E & Lb & F).
    { rewrite length_skipn. lia. }
    exists (firstn 16 data :: blocks). cbn [concat length]. repeat split.
    + rewrite <- E. symmetry. apply firstn_skipn.
    + lia.
    + constructor; [|exact F]. rewrite length_firstn. lia.
Qed.

Lemma length_concat_blocks (blocks : list bytes) :
  Forall (fun b : bytes => length b = 16) blocks ->
  length (concat blocks) = 16 * length blocks.
Proof.
  induction 1 as [|b blocks Hb _ IH]; cbn [concat length]; [reflexivity|].
  rewrite length_app, Hb, IH. lia.
Qed.

Lemma range3_blocks (n : nat) :
  range3 0 (16 * n) 16 = map (fun k => 0 + 16 * k) (seq 0 n).
Proof.
  unfold range3. f_equal. f_equal.
  symmetry. apply Nat.div_unique with (r := 15); lia.
Qed.

Lemma slice_block (pre b rest : bytes) :
  length b = 16 ->
  slice (pre ++ b ++ rest) (length pre) (length pre + 16) = b.
Proof.
  intros Lb. unfold slice.
  replace (length pre + 16 - length pre) with 16 by lia.
  rewrite skipn_app, skipn_all, Nat.sub_diag, skipn_O, app_nil_l.
  rewrite firstn_app, Lb, Nat.sub_diag, firstn_O, app_nil_r.
  apply firstn_all2. lia.
Qed.

Lemma block_loop_from (f : bytes -> result bytes) (blocks outs : list bytes) :
  Forall2 (fun b o => length b = 16 /\ f b = Ok o) blocks outs ->
  forall (data pre acc : bytes),
    data = pre ++ concat blocks ->
    foldM (fun acc i => c <- f (slice data i (i + 16)) ;; Ok (acc ++ c))
          (map (fun k => length pre + 16 * k) (seq 0 (length blocks))) acc
    = Ok (acc ++ concat outs).
Proof.
  induction 1 as [|b o blocks outs (Lb & Eb) _ IH]; intros data pre acc E.
  - cbn [length seq map foldM concat]. rewrite app_nil_r. reflexivity.
  - cbn [length seq map foldM concat].
    rewrite Nat.mul_0_r, Nat.add_0_r.
    rewrite E at 1. cbn [concat]. rewrite slice_block by exact Lb.
    rewrite Eb. cbn [bind].
    rewrite <- seq_shift, map_map.
    rewrite (map_ext (fun k => length pre + 16 * S k)
                     (fun k => length (pre ++ b) + 16 * k)).
    + rewrite (IH data (pre ++ b) (acc ++ o)).
      * rewrite <- app_assoc. reflexivity.
      * rewrite E. cbn [concat]. rewrite app_assoc. reflexivity.
    + intros k. rewrite length_app, Lb. lia.
Qed.

(** The loop over a buffer made of 16-byte blocks is the concatenation of
    the images of the blocks. *)
Lemma block_loop_concat (f : bytes -> result bytes) (blocks outs : list bytes) :
  Forall2 (fun b o => length b = 16 /\ f b = Ok o) blocks outs ->
  block_loop f (concat blocks) = Ok (concat outs).
Proof.
  intros F. unfold block_loop.
  assert (L : Forall (fun b : bytes => length b = 16) blocks).
  { clear -F. induction F as [|? ? ? ? (? & _)]; constructor; assumption. }
  rewrite (@length_concat_blocks blocks L), range3_blocks.
  apply (@block_loop_from f blocks outs F (concat blocks) [] []). reflexivity.
Qed.

Lemma encrypt_blocks_loop (padded key : bytes) :
  AesEncrypt.encrypt_blocks padded key
  = block_loop (fun b => AesEncrypt.encrypt_block b key) padded.
Proof. reflexivity. Qed.

Lemma decrypt_blocks_loop (ciphertext key : bytes) :
  AesDecrypt.decrypt_blocks ciphertext key
  = block_loop (fun b => AesDecrypt.decrypt_block b key) ciphertext.
Proof. reflexivity. Qed.

(** Every block of a block-aligned plaintext has a ciphertext block that
    decrypts back to it. *)
Lemma blocks_encrypted (key : bytes) (blocks : list bytes) :
  length key = 16 ->
  Forall (fun b : bytes => length b = 16) blocks ->
  exists outs,
    Forall2 (fun b o => length b = 16 /\ AesEncrypt.encrypt_block b key = Ok o)
            blocks outs /\
    Forall2 (fun o b => length o = 16 /\ AesDecrypt.decrypt_block o key = Ok b)
            outs blocks.
Proof.
  intros LK. induction 1 as [|b blocks Lb _ (outs & F1 & F2)].
  - exists []. split; constructor.
  - destruct (@encrypt_block_inverted b key Lb LK) as (o & Eo & Lo & Do).
    exists (o :: outs). split; constructor; auto.
Qed.

Lemma blocks_decrypted (key : bytes) (blocks : list bytes) :
  length key = 16 ->
  Forall (fun b : bytes => length b = 16) blocks ->
  exists outs,
    Forall2 (fun b o => length b = 16 /\ AesDecrypt.decrypt_block b key = Ok o)
            blocks outs /\
    Forall (fun o : bytes => length o = 16) outs.
Proof.
  intros LK. induction 1 as [|b blocks Lb _ (outs & F1 & F2)].
  - exists []. split; constructor.
  - destruct (@decrypt_block_total b key Lb LK) as (o & Eo & Lo).
    exists (o :: outs). split; constructor; auto.
Qed.

Lemma Forall2_length_16 (P : bytes -> bytes -> Prop) (xs ys : list bytes) :
  Forall2 (fun x y => length x = 16 /\ P x y) xs ys ->
  Forall (fun x : bytes => length x = 16) xs /\ length xs = length ys.
Proof.
  induction 1 as [|x y xs ys (L & _) _ (IH1 & IH2)].
  - split; [constructor | reflexivity].
  - split; [constructor; assumption | cbn; congruence].
Qed.

(** *** Padding and its removal *)

Lemma padding_len_bounds (m : bytes) :
  1 <= AesEncrypt.padding_len m <= 16 /\
  length m + AesEncrypt.padding_len m = 16 * (length m / 16 + 1).
Proof.
  unfold AesEncrypt.padding_len, AesEncrypt.block_size.
  pose proof (Nat.mod_upper_bound (length m) 16 ltac:(discriminate)).
  pose proof (Nat.div_mod_eq (length m) 16). lia.
Qed.

Lemma mapM_repeat {A B : Type} (f : A -> result B) (x : A) (y : B) (n : nat) :
  f x = Ok y -> mapM f (repeat x n) = Ok (repeat y n).
Proof.
  intros E. induction n as [|n IH]; cbn [repeat mapM]; [reflexivity|].
  rewrite E, IH. reflexivity.
Qed.

Lemma pad_total (m : bytes) :
  exists b, Byte.to_N b = N.of_nat (AesEncrypt.padding_len m) /\
            AesEncrypt.pad m = Ok (m ++ repeat b (AesEncrypt.padding_len m)).
Proof.
  destruct (padding_len_bounds m) as (B & _).
  destruct (@to_byte_total (N.of_nat (AesEncrypt.padding_len m))) as (b & E & Hb);
    [lia|].
  exists b. split; [exact Hb|].
  unfold AesEncrypt.pad, py_bytes. rewrite (@mapM_repeat _ _ _ _ _ (AesEncrypt.padding_len m) E). reflexivity.
Qed.

Lemma last_bytes_eq (n : nat) (buf : bytes) :
  last_bytes n buf = slice_from_neg buf n.
Proof.
  unfold last_bytes, slice_from_neg. rewrite firstn_rev. apply rev_involutive.
Qed.

Lemma strip_trailer_eq (buf : bytes) :
  strip_trailer buf = slice_to_neg buf (N.to_nat (trailing_byte buf)).
Proof.
  unfold strip_trailer, slice_to_neg. rewrite skipn_rev. apply rev_involutive.
Qed.

Lemma getitem_neg_last (buf : bytes) :
  buf <> [] -> getitem_neg buf 1 = Ok (last buf x00).
Proof.
  intros NE. destruct (exists_last NE) as (l & a & ->).
  rewrite last_last. unfold getitem_neg, getitem.
  rewrite length_app. cbn [length].
  replace (length l + 1 <? 1) with false by (symmetry; apply Nat.ltb_ge; lia).
  rewrite nth_error_app2 by lia.
  replace (length l + 1 - 1 - length l) with 0 by lia. reflexivity.
Qed.

(** What the padding removal does on a non-empty buffer: it strips a
    well-formed trailer and returns a buffer with a malformed one as it
    is, without raising. *)
Lemma remove_padding_spec (buf : bytes) :
  buf <> [] ->
  AesDecrypt.remove_padding buf
  = Ok (if trailer_malformed buf then buf else strip_trailer buf).
Proof.
  intros NE. unfold AesDecrypt.remove_padding.
  rewrite (@getitem_neg_last buf NE). cbn [bind].
  unfold trailer_malformed. rewrite last_bytes_eq, strip_trailer_eq.
  fold (trailing_byte buf).
  change (N.of_nat AesDecrypt.block_size) with 16%N.
  destruct (N.eqb_spec (trailing_byte buf) 0);
    destruct (N.ltb_spec 0 (trailing_byte buf)); try lia;
    destruct (N.leb_spec (trailing_byte buf) 16);
    destruct (N.ltb_spec 16 (trailing_byte buf)); try lia;
    cbn [andb orb negb]; try reflexivity.
  destruct (forallb _ _); reflexivity.
Qed.

Lemma trailing_byte_pad (m : bytes) (b : byte) (n : nat) :
  1 <= n -> trailing_byte (m ++ repeat b n) = Byte.to_N b.
Proof.
  intros Hn. unfold trailing_byte. destruct n as [|n]; [lia|].
  cbn [repeat]. rewrite repeat_cons, app_assoc, last_last. reflexivity.
Qed.

(** Removing the padding that [pad] appended gives the message back. *)
Lemma remove_padding_pad (m : bytes) (b : byte) (n : nat) :
  1 <= n <= 16 -> Byte.to_N b = N.of_nat n ->
  AesDecrypt.remove_padding (m ++ repeat b n) = Ok m.
Proof.
  intros Hn Hb.
  assert (NE : m ++ repeat b n <> []).
  { destruct n; [lia|]. cbn [repeat]. intros E. apply app_eq_nil in E.
    destruct E as (_ & E). discriminate E. }
  rewrite (@remove_padding_spec _ NE).
  unfold trailer_malformed. rewrite last_bytes_eq, strip_trailer_eq.
  rewrite (@trailing_byte_pad m b n) by lia. rewrite Hb, Nat2N.id.
  unfold slice_from_neg, slice_to_neg.
  rewrite length_app, repeat_length.
  replace (length m + n - n) with (length m) by lia.
  rewrite skipn_app, skipn_all, Nat.sub_diag, skipn_O, app_nil_l.
  rewrite firstn_app, firstn_all, Nat.sub_diag, firstn_O, app_nil_r.
  replace (forallb (fun b0 : byte => (Byte.to_N b0 =? N.of_nat n)%N) (repeat b n))
    with true.
  - destruct (N.eqb_spec (N.of_nat n) 0); [lia|].
    destruct (N.ltb_spec 16 (N.of_nat n)); [lia|]. reflexivity.
  - symmetry. apply forallb_forall. intros x Hx.
    apply repeat_spec in Hx. subst x. apply N.eqb_eq, Hb.
Qed.

(** *** The two wrappers *)

(** Encryption of any message under a 16-byte key: the padded message is
    cut into blocks, and the ciphertext is made of as many 16-byte blocks,
    each decrypting to the plaintext block it came from. *)
Lemma encrypt_total (m key : bytes) :
  length key = 16 ->
  exists b blocks outs,
    Byte.to_N b = N.of_nat (AesEncrypt.padding_len m) /\
    m ++ repeat b (AesEncrypt.padding_len m) = concat blocks /\
    length blocks = length m / 16 + 1 /\
    Forall2 (fun p c => length p = 16 /\ AesEncrypt.encrypt_block p key = Ok c)
            blocks outs /\
    Forall2 (fun c p => length c = 16 /\ AesDecrypt.decrypt_block c key = Ok p)
            outs blocks /\
    AesEncrypt.encrypt m key = Ok (concat outs).
Proof.
  intros LK.
  destruct (pad_total m) as (b & Hb & Ep).
  destruct (padding_len_bounds m) as (Bn & Ln).
  destruct (@blocks_of (length m / 16 + 1) (m ++ repeat b (AesEncrypt.padding_len m)))
    as (blocks & E & Lb & F).
  { rewrite length_app, repeat_length. exact Ln. }
  destruct (@blocks_encrypted key blocks LK F) as (outs & F1 & F2).
  exists b, blocks, outs. repeat split; try assumption.
  unfold AesEncrypt.encrypt. rewrite Ep. cbn [bind].
  rewrite encrypt_blocks_loop, E. apply block_loop_concat, F1.
Qed.

(** Decryption of a block-aligned ciphertext under a 16-byte key: the
    block loop returns a buffer of the same length. *)
Lemma decrypt_blocks_total (ciphertext key : bytes) :
  length key = 16 -> length ciphertext mod 16 = 0 ->
  exists buf, AesDecrypt.decrypt_blocks ciphertext key = Ok buf /\
              length buf = length ciphertext.
Proof.
  intros LK LC.
  destruct (@blocks_of (length ciphertext / 16) ciphertext) as (blocks & E & Lb & F).
  { pose proof (Nat.div_mod_eq (length ciphertext) 16). lia. }
  destruct (@blocks_decrypted key blocks LK F) as (outs & F1 & F2).
  exists (concat outs). split.
  - rewrite decrypt_blocks_loop, E. apply block_loop_concat, F1.
  - rewrite E, (@length_concat_blocks blocks F), (@length_concat_blocks outs F2).
    destruct (@Forall2_length_16 _ blocks outs F1) as (_ & ->). reflexivity.
Qed.

End Messages.

Section Wrappers.

(** The shape of every successful [decrypt]: the block loop returns a
    buffer as long as the ciphertext, and the result is that buffer, with
    the pad stripped exactly when the trailer is well formed. *)
Lemma decrypt_spec (ciphertext key : bytes) :
  length key = 16 -> ciphertext <> [] -> length ciphertext mod 16 = 0 ->
  exists buf,
    AesDecrypt.decrypt_blocks ciphertext key = Ok buf /\
    length buf = length ciphertext /\
    AesDecrypt.decrypt ciphertext key
    = Ok (if trailer_malformed buf then buf else strip_trailer buf).
Proof.
  intros LK NE LC.
  destruct (@decrypt_blocks_total ciphertext key LK LC) as (buf & E & L).
  exists buf. split; [exact E | split; [exact L|]].
  unfold AesDecrypt.decrypt. rewrite E. cbn [bind].
  apply remove_padding_spec.
  intros ->. destruct ciphertext; [apply NE; reflexivity | discriminate L].
Qed.

Lemma bytes_to_state_short (data : bytes) :
  length data < 16 -> AesEncrypt.bytes_to_state data = Err IndexError.
Proof.
  intros L.
  do 16 (destruct data as [|? data]; [reflexivity|]).
  cbn [length] in L. lia.
Qed.

Lemma bytes_to_state_prefix (data : bytes) :
  16 <= length data ->
  AesEncrypt.bytes_to_state data = AesEncrypt.bytes_to_state (firstn 16 data).
Proof.
  intros L.
  do 16 (destruct data as [|? data]; [cbn [length] in L; lia|]).
  reflexivity.
Qed.

End Wrappers.

(** * The properties of the specification *)

Unset Implicit Arguments.

(** C1.  Message round trip: for every message (of any length, the empty one
    included) and every 16-byte key, [encrypt] returns a ciphertext and
    [decrypt] of that ciphertext under the same key returns the message. *)
Theorem message_round_trip (m key : bytes) :
  length key = 16 ->
  exists c, AesEncrypt.encrypt m key = Ok c /\ AesDecrypt.decrypt c key = Ok m.
Proof.
  intros LK.
  destruct (@encrypt_total m key LK) as (b & blocks & outs & Hb & E & _ & _ & F2 & Ec).
  exists (concat outs). split; [exact Ec|].
  assert (D : AesDecrypt.decrypt_blocks (concat outs) key = Ok (concat blocks)).
  { rewrite decrypt_blocks_loop. apply block_loop_concat, F2. }
  unfold AesDecrypt.decrypt. rewrite D, <- E.
  cbn [bind]. apply remove_padding_pad; [|exact Hb].
  apply padding_len_bounds.
Qed.

Lemma message_round_trip_witness :
  length test_key = 16 /\
  exists c, AesEncrypt.encrypt [x48; x69]%byte test_key = Ok c /\
            AesDecrypt.decrypt c test_key = Ok [x48; x69]%byte.
Proof.
  split; [reflexivity | apply (message_round_trip [x48; x69]%byte test_key)].
  reflexivity.
Defined.

(** C2.  Block round trip: for every 16-byte block and every 16-byte key,
    [encrypt_block] returns a 16-byte block and [decrypt_block] of it under
    the same key returns the original block. *)
Theorem block_round_trip (plaintext key : bytes) :
  length plaintext = 16 -> length key = 16 ->
  exists c, AesEncrypt.encrypt_block plaintext key = Ok c /\
            length c = 16 /\
            AesDecrypt.decrypt_block c key = Ok plaintext.
Proof. apply encrypt_block_inverted. Qed.

Lemma block_round_trip_witness :
  length test_plaintext = 16 /\ length test_key = 16 /\
  exists c, AesEncrypt.encrypt_block test_plaintext test_key = Ok c /\
            length c = 16 /\
            AesDecrypt.decrypt_block c test_key = Ok test_plaintext.
Proof.
  split; [reflexivity | split; [reflexivity|]].
  apply (block_round_trip test_plaintext test_key); reflexivity.
Defined.

(** C3.  The FIPS-197 vector: under the key 2b7e1516 28aed2a6 abf71588
    09cf4f3c the plaintext 3243f6a8 885a308d 313198a2 e0370734 encrypts to
    3925841d 02dc09fb dc118597 196a0b32, and that ciphertext decrypts to
    that plaintext. *)
Theorem fips197_vector :
  AesEncrypt.encrypt_block test_plaintext test_key = Ok test_ciphertext /\
  AesDecrypt.decrypt_block test_ciphertext test_key = Ok test_plaintext.
Proof. split; vm_compute; reflexivity. Qed.

(** C4, as stated, fails: the FIPS ciphertext decrypts to a buffer whose
    trailing byte is 0x34 > 16, a malformed trailer, and [decrypt] returns
    that buffer instead of reporting [InvalidPadding]. *)
Lemma decrypt_invalid_padding_counterexample :
  AesDecrypt.decrypt_blocks test_ciphertext test_key = Ok test_plaintext /\
  trailer_malformed test_plaintext = true /\
  AesDecrypt.decrypt test_ciphertext test_key = Ok test_plaintext /\
  AesDecrypt.decrypt test_ciphertext test_key <> Err InvalidPadding.
Proof.
  assert (E : AesDecrypt.decrypt test_ciphertext test_key = Ok test_plaintext)
    by (vm_compute; reflexivity).
  repeat split; try (vm_compute; reflexivity).
  rewrite E. discriminate.
Qed.

(** C4, amended.  On a non-empty block-aligned ciphertext under a 16-byte
    key, [decrypt] checks the PKCS7 trailer of the decrypted buffer at once
    and always returns a value: the buffer without its pad when the trailer
    is well formed, the buffer as it is when the trailer is malformed.  It
    never reports [InvalidPadding]. *)
Theorem decrypt_checks_trailer_without_error (ciphertext key : bytes) :
  length key = 16 -> ciphertext <> [] -> length ciphertext mod 16 = 0 ->
  exists buf,
    AesDecrypt.decrypt_blocks ciphertext key = Ok buf /\
    AesDecrypt.decrypt ciphertext key
    = Ok (if trailer_malformed buf then buf else strip_trailer buf) /\
    AesDecrypt.decrypt ciphertext key <> Err InvalidPadding.
Proof.
  intros LK NE LC.
  destruct (@decrypt_spec ciphertext key LK NE LC) as (buf & E & _ & D).
  exists buf. repeat split; [exact E | exact D |].
  rewrite D. discriminate.
Qed.

Lemma decrypt_checks_trailer_without_error_witness :
  length test_key = 16 /\ test_ciphertext <> [] /\
  length test_ciphertext mod 16 = 0 /\
  exists buf,
    AesDecrypt.decrypt_blocks test_ciphertext test_key = Ok buf /\
    AesDecrypt.decrypt test_ciphertext test_key
    = Ok (if trailer_malformed buf then buf else strip_trailer buf) /\
    AesDecrypt.decrypt test_ciphertext test_key <> Err InvalidPadding.
Proof.
  split; [reflexivity | split; [discriminate | split; [reflexivity|]]].
  apply (decrypt_checks_trailer_without_error test_ciphertext test_key);
    [reflexivity | discriminate | reflexivity].
Defined.

(** C5.  On a non-empty ciphertext whose length is a multiple of 16 (and a
    16-byte key), the block loop returns a buffer, and when the trailer of
    that buffer is malformed (trailing byte 0, or above 16, or the last n
    bytes not all n) [decrypt] returns the whole buffer, unmodified and
    without an error. *)
Theorem decrypt_malformed_trailer_passthrough (ciphertext key : bytes) :
  length key = 16 -> ciphertext <> [] -> length ciphertext mod 16 = 0 ->
  exists buf,
    AesDecrypt.decrypt_blocks ciphertext key = Ok buf /\
    length buf = length ciphertext /\
    (trailer_malformed buf = true ->
     AesDecrypt.decrypt ciphertext key = Ok buf).
Proof.
  intros LK NE LC.
  destruct (@decrypt_spec ciphertext key LK NE LC) as (buf & E & L & D).
  exists buf. repeat split; [exact E | exact L |].
  intros M. rewrite D, M. reflexivity.
Qed.

Lemma decrypt_malformed_trailer_passthrough_witness :
  length test_key = 16 /\ test_ciphertext <> [] /\
  length test_ciphertext mod 16 = 0 /\
  exists buf,
    AesDecrypt.decrypt_blocks test_ciphertext test_key = Ok buf /\
    length buf = length test_ciphertext /\
    (trailer_malformed buf = true ->
     AesDecrypt.decrypt test_ciphertext test_key = Ok buf).
Proof.
  split; [reflexivity | split; [discriminate | split; [reflexivity|]]].
  apply (decrypt_malformed_trailer_passthrough test_ciphertext test_key);
    [reflexivity | discriminate | reflexivity].
Defined.

(** C6.  For every plaintext and 16-byte key, [encrypt] appends
    [n = 16 - (len mod 16)] pad bytes of value [n] (so a full block of 16
    bytes of value 16 when the length is already a multiple of 16) and
    returns a ciphertext of [len + n] bytes, a positive multiple of 16. *)
Theorem encrypt_pads_to_blocks (m key : bytes) :
  length key = 16 ->
  let n := 16 - length m mod 16 in
  exists b c,
    Byte.to_N b = N.of_nat n /\
    AesEncrypt.pad m = Ok (m ++ repeat b n) /\
    AesEncrypt.encrypt_blocks (m ++ repeat b n) key = Ok c /\
    AesEncrypt.encrypt m key = Ok c /\
    length c = length m + n /\
    0 < length c /\ length c mod 16 = 0 /\
    1 <= n <= 16 /\ (length m mod 16 = 0 -> n = 16).
Proof.
  intros LK n.
  destruct (@encrypt_total m key LK)
    as (b & blocks & outs & Hb & E & Lb & F1 & F2 & Ec).
  destruct (pad_total m) as (b' & Hb' & Ep).
  assert (b' = b) as ->.
  { pose proof (Byte.of_to_N b) as Q. pose proof (Byte.of_to_N b') as Q'.
    rewrite Hb in Q. rewrite Hb' in Q'. congruence. }
  change (AesEncrypt.padding_len m) with n in *.
  destruct (padding_len_bounds m) as (Bn & Ln).
  change (AesEncrypt.padding_len m) with n in *.
  assert (Lc : length (concat outs) = length m + n).
  { destruct (@Forall2_length_16 _ outs blocks F2) as (Fo & Lo).
    rewrite (@length_concat_blocks outs Fo). unfold bytes in *. rewrite Lo, Lb. lia. }
  exists b, (concat outs). repeat split; try assumption; try lia.
  - unfold AesEncrypt.encrypt in Ec. rewrite Ep in Ec. exact Ec.
  - rewrite Lc, Ln, Nat.mul_comm. apply Nat.Div0.mod_mul.
Qed.

Lemma encrypt_pads_to_blocks_witness :
  length test_key = 16 /\
  exists b c,
    Byte.to_N b = N.of_nat 16 /\
    AesEncrypt.pad test_plaintext = Ok (test_plaintext ++ repeat b 16) /\
    AesEncrypt.encrypt_blocks (test_plaintext ++ repeat b 16) test_key = Ok c /\
    AesEncrypt.encrypt test_plaintext test_key = Ok c /\
    length c = length test_plaintext + 16 /\
    0 < length c /\ length c mod 16 = 0 /\
    1 <= 16 <= 16 /\ (length test_plaintext mod 16 = 0 -> 16 = 16).
Proof.
  split; [reflexivity|].
  apply (encrypt_pads_to_blocks test_plaintext test_key). reflexivity.
Defined.

(** C7.  For every 4x4 state of bytes, [mix_columns] returns a state and
    [inv_mix_columns] of that state is the original one. *)
Theorem inv_mix_columns_mix_columns (st : state) :
  is_state st = true ->
  (mixed <- MixColumns.mix_columns st ;; InvMixColumns.inv_mix_columns mixed)
  = Ok st.
Proof.
  intros H. destruct (@mix_columns_undone st H) as (mixed & -> & _ & E).
  exact E.
Qed.

Lemma inv_mix_columns_mix_columns_witness :
  let st := [[0xd4; 0xe0; 0xb8; 0x1e]; [0xbf; 0xb4; 0x41; 0x27];
             [0x5d; 0x52; 0x11; 0x98]; [0x30; 0xae; 0xf1; 0xe5]]%N in
  is_state st = true /\
  (mixed <- MixColumns.mix_columns st ;; InvMixColumns.inv_mix_columns mixed)
  = Ok st.
Proof.
  intros st. split; [reflexivity|].
  apply (inv_mix_columns_mix_columns st). reflexivity.
Defined.

(** C8, as stated, fails: with the 16-byte test key, a 17-byte plaintext is
    encrypted without any error (its first 16 bytes are used), and a 15-byte
    plaintext fails with the interpreter's [IndexError], not with
    [InvalidBlockLength]. *)
Lemma encrypt_block_length_counterexample :
  length (test_plaintext ++ [x00]%byte) <> 16 /\
  AesEncrypt.encrypt_block (test_plaintext ++ [x00]%byte) test_key
  = Ok test_ciphertext /\
  length (firstn 15 test_plaintext) <> 16 /\
  AesEncrypt.encrypt_block (firstn 15 test_plaintext) test_key = Err IndexError.
Proof.
  repeat split; try (vm_compute; reflexivity); vm_compute; discriminate.
Qed.

(** C8, amended.  [encrypt_block] fails with [InvalidKeyLength] whenever the
    key is not exactly 16 bytes.  Under a 16-byte key, a plaintext shorter
    than 16 bytes fails with [IndexError], and a plaintext longer than 16
    bytes does not fail: the result is the encryption of its first 16
    bytes. *)
Theorem encrypt_block_length_errors (plaintext key : bytes) :
  (length key <> 16 ->
   AesEncrypt.encrypt_block plaintext key = Err InvalidKeyLength) /\
  (length key = 16 -> length plaintext < 16 ->
   AesEncrypt.encrypt_block plaintext key = Err IndexError) /\
  (length key = 16 -> 16 < length plaintext ->
   exists c, AesEncrypt.encrypt_block plaintext key = Ok c /\
             AesEncrypt.encrypt_block (firstn 16 plaintext) key = Ok c).
Proof.
  split; [|split].
  - intros NK. unfold AesEncrypt.encrypt_block, KeyExpansion.key_expansion.
    apply Nat.eqb_neq in NK. rewrite NK. reflexivity.
  - intros LK LP.
    destruct (@key_expansion_total key LK) as (rks & EK & _).
    unfold AesEncrypt.encrypt_block. rewrite EK. cbn [bind].
    rewrite (@bytes_to_state_short plaintext LP). reflexivity.
  - intros LK LP.
    destruct (@encrypt_block_inverted (firstn 16 plaintext) key) as (c & E & _).
    + rewrite length_firstn. lia.
    + exact LK.
    + exists c. split; [|exact E].
      rewrite <- E. unfold AesEncrypt.encrypt_block.
      rewrite (@bytes_to_state_prefix plaintext) by lia. reflexivity.
Qed.

Lemma encrypt_block_length_errors_witness :
  (length (firstn 15 test_key) <> 16 /\
   AesEncrypt.encrypt_block test_plaintext (firstn 15 test_key)
   = Err InvalidKeyLength) /\
  (length test_key = 16 /\ length (firstn 15 test_plaintext) < 16 /\
   AesEncrypt.encrypt_block (firstn 15 test_plaintext) test_key = Err IndexError) /\
  (length test_key = 16 /\ 16 < length (test_plaintext ++ [x00]%byte) /\
   exists c,
     AesEncrypt.encrypt_block (test_plaintext ++ [x00]%byte) test_key = Ok c /\
     AesEncrypt.encrypt_block (firstn 16 (test_plaintext ++ [x00]%byte)) test_key
     = Ok c).
Proof.
  split; [|split].
  - split; [cbn; discriminate|].
    apply (proj1 (encrypt_block_length_errors test_plaintext (firstn 15 test_key))).
    cbn. discriminate.
  - split; [reflexivity | split; [cbn; lia|]].
    apply (proj1 (proj2 (encrypt_block_length_errors
                           (firstn 15 test_plaintext) test_key)));
      [reflexivity | cbn; lia].
  - split; [reflexivity | split; [cbn; lia|]].
    apply (proj2 (proj2 (encrypt_block_length_errors
                           (test_plaintext ++ [x00]%byte) test_key)));
      [reflexivity | cbn; lia].
Defined.

(** C9.  On the empty ciphertext the block loop of [decrypt] returns the
    empty buffer, reading its trailing byte raises [IndexError], and so
    [decrypt] returns no value, whatever the key. *)
Theorem decrypt_empty_fails (key : bytes) :
  AesDecrypt.decrypt_blocks [] key = Ok [] /\
  AesDecrypt.decrypt [] key = Err IndexError /\
  is_ok (AesDecrypt.decrypt [] key) = false.
Proof. repeat split. Qed.

(** C10.  Every visible transform keeps a 4x4 state of bytes a 4x4 state of
    bytes: [add_round_key] (with a round key that is one too),
    [shift_rows], [inv_shift_rows], [mix_columns] and [inv_mix_columns] all
    return, and return a state whose sixteen entries lie in 0..255. *)
Theorem transforms_preserve_bytes (st round_key : state) :
  is_state st = true -> is_state round_key = true ->
  ok_state (AddRoundKey.add_round_key st round_key) = true /\
  ok_state (ShiftRows.shift_rows st) = true /\
  ok_state (InvShiftRows.inv_shift_rows st) = true /\
  ok_state (MixColumns.mix_columns st) = true /\
  ok_state (InvMixColumns.inv_mix_columns st) = true.
Proof.
  intros H Hk. repeat split.
  - exact (@undoes_ok _ _ st (@dec_add_round_key_undone round_key Hk) H).
  - exact (@undoes_ok _ _ st shift_rows_undone H).
  - exact (@undoes_ok _ _ st inv_shift_rows_undone H).
  - exact (@undoes_ok _ _ st mix_columns_undone H).
  - exact (@inv_mix_columns_ok st H).
Qed.

Lemma transforms_preserve_bytes_witness :
  let st := [[0xd4; 0xe0; 0xb8; 0x1e]; [0xbf; 0xb4; 0x41; 0x27];
             [0x5d; 0x52; 0x11; 0x98]; [0x30; 0xae; 0xf1; 0xe5]]%N in
  let rk := [[0x2b; 0x28; 0xab; 0x09]; [0x7e; 0xae; 0xf7; 0xcf];
             [0x15; 0xd2; 0x15; 0x4f]; [0x16; 0xa6; 0x88; 0x3c]]%N in
  is_state st = true /\ is_state rk = true /\
  ok_state (AddRoundKey.add_round_key st rk) = true /\
  ok_state (ShiftRows.shift_rows st) = true /\
  ok_state (InvShiftRows.inv_shift_rows st) = true /\
  ok_state (MixColumns.mix_columns st) = true /\
  ok_state (InvMixColumns.inv_mix_columns st) = true.
Proof.
  intros st rk. split; [reflexivity | split; [reflexivity|]].
  apply (transforms_preserve_bytes st rk); reflexivity.
Defined.


(** * Further properties of the sources *)

Section Rotations.

Variable A : Type.

Lemma rotate_length (k : nat) (r : list A) :
  length (slice_from r k ++ slice_to r k) = length r.
Proof.
  unfold slice_from, slice_to.
  rewrite length_app, length_skipn, length_firstn. lia.
Qed.

(** Rotating a row left by [k] and then right by [k] gives the row back,
    also when the row is shorter than [k] (both slices are then clamped). *)
Lemma rotate_left_right (k : nat) (r : list A) :
  let r' := slice_from r k ++ slice_to r k in
  slice_from_neg r' k ++ slice_to_neg r' k = r.
Proof.
  intros r'. unfold slice_from_neg, slice_to_neg. unfold r'.
  rewrite rotate_length. unfold slice_from, slice_to.
  destruct (Nat.le_gt_cases k (length r)) as [Hk|Hk].
  - rewrite skipn_app, firstn_app, length_skipn.
    rewrite (skipn_all2 (skipn k r)) by (rewrite length_skipn; lia).
    rewrite (firstn_all2 (skipn k r)) by (rewrite length_skipn; lia).
    rewrite Nat.sub_diag, skipn_O, firstn_O, app_nil_l, app_nil_r.
    apply firstn_skipn.
  - rewrite (skipn_all2 r) by lia. rewrite (firstn_all2 r) by lia.
    replace (length r - k) with 0 by lia.
    rewrite app_nil_l, skipn_O, firstn_O, app_nil_r. reflexivity.
Qed.

Lemma rotate_right_left (k : nat) (r : list A) :
  let r' := slice_from_neg r k ++ slice_to_neg r k in
  slice_from r' k ++ slice_to r' k = r.
Proof.
  intros r'. unfold r', slice_from_neg, slice_to_neg, slice_from, slice_to.
  destruct (Nat.le_gt_cases k (length r)) as [Hk|Hk].
  - rewrite skipn_app, firstn_app, length_skipn.
    replace (length r - (length r - k)) with k by lia.
    rewrite (skipn_all2 (skipn (length r - k) r)) by (rewrite length_skipn; lia).
    rewrite (firstn_all2 (skipn (length r - k) r)) by (rewrite length_skipn; lia).
    rewrite Nat.sub_diag, skipn_O, firstn_O, app_nil_l, app_nil_r.
    apply firstn_skipn.
  - replace (length r - k) with 0 by lia.
    rewrite skipn_O, firstn_O, app_nil_r.
    rewrite (skipn_all2 r) by lia. rewrite (firstn_all2 r) by lia.
    reflexivity.
Qed.

End Rotations.

(** X1.  On every matrix of exactly four rows, whatever the lengths of the
    rows and whatever the integers in them, [inv_shift_rows] undoes
    [shift_rows] and [shift_rows] undoes [inv_shift_rows]. *)
Theorem shift_rows_inverse_any_rows (r0 r1 r2 r3 : list N) :
  (st <- ShiftRows.shift_rows [r0; r1; r2; r3] ;; InvShiftRows.inv_shift_rows st)
  = Ok [r0; r1; r2; r3] /\
  (st <- InvShiftRows.inv_shift_rows [r0; r1; r2; r3] ;; ShiftRows.shift_rows st)
  = Ok [r0; r1; r2; r3].
Proof.
  split.
  - cbv [ShiftRows.shift_rows InvShiftRows.inv_shift_rows getitem nth_error bind].
    rewrite (rotate_left_right N 1 r1), (rotate_left_right N 2 r2),
            (rotate_left_right N 3 r3).
    reflexivity.
  - cbv [ShiftRows.shift_rows InvShiftRows.inv_shift_rows getitem nth_error bind].
    rewrite (rotate_right_left N 1 r1), (rotate_right_left N 2 r2),
            (rotate_right_left N 3 r3).
    reflexivity.
Qed.



Section Shapes.

Lemma length4_inv (r : list N) :
  length r = 4 -> exists a b c d, r = [a; b; c; d].
Proof.
  intros L. do 4 (destruct r as [|? r]; [discriminate L|]).
  destruct r; [|discriminate L]. do 4 eexists. reflexivity.
Qed.

Lemma is_4x4_inv (st : state) :
  is_4x4 st = true ->
  exists a0 a1 a2 a3 b0 b1 b2 b3 c0 c1 c2 c3 d0 d1 d2 d3,
    st = [[a0; a1; a2; a3]; [b0; b1; b2; b3];
          [c0; c1; c2; c3]; [d0; d1; d2; d3]].
Proof.
  unfold is_4x4.
  destruct st as [|r0 [|r1 [|r2 [|r3 [|r4 st]]]]];
    cbn [length Nat.eqb forallb andb]; try discriminate.
  rewrite !andb_true_iff, !Nat.eqb_eq. intros (L0 & L1 & L2 & L3 & _).
  destruct (length4_inv r0 L0) as (a0 & a1 & a2 & a3 & ->).
  destruct (length4_inv r1 L1) as (b0 & b1 & b2 & b3 & ->).
  destruct (length4_inv r2 L2) as (c0 & c1 & c2 & c3 & ->).
  destruct (length4_inv r3 L3) as (d0 & d1 & d2 & d3 & ->).
  do 16 eexists. reflexivity.
Qed.

Lemma is_state_4x4 (st : state) : is_state st = true -> is_4x4 st = true.
Proof.
  intros H. explode_state H. reflexivity.
Qed.

Lemma mapM_length {A B : Type} (f : A -> result B) (l : list A) (l' : list B) :
  mapM f l = Ok l' -> length l' = length l.
Proof.
  revert l'. induction l as [|x l IH]; intros l' E; cbn [mapM] in E.
  - injection E as <-. reflexivity.
  - destruct (f x) as [y|]; [|discriminate E]. cbn [bind] in E.
    destruct (mapM f l) as [ys|]; [|discriminate E]. cbn [bind] in E.
    injection E as <-. cbn [length]. rewrite (IH ys eq_refl). reflexivity.
Qed.

Lemma mapM_Forall {A B : Type} (f : A -> result B) (P : B -> Prop)
      (l : list A) (l' : list B) :
  (forall x y, f x = Ok y -> P y) -> mapM f l = Ok l' -> Forall P l'.
Proof.
  intros H. revert l'. induction l as [|x l IH]; intros l' E; cbn [mapM] in E.
  - injection E as <-. constructor.
  - destruct (f x) as [y|] eqn:Ey; [|discriminate E]. cbn [bind] in E.
    destruct (mapM f l) as [ys|]; [|discriminate E]. cbn [bind] in E.
    injection E as <-. constructor; [exact (H x y Ey) | exact (IH ys eq_refl)].
Qed.

Lemma is_4x4_iff (st : state) :
  is_4x4 st = true <->
  length st = 4 /\ Forall (fun r : list N => length r = 4) st.
Proof.
  unfold is_4x4. rewrite andb_true_iff, Nat.eqb_eq, forallb_forall, Forall_forall.
  split; intros (L & H); (split; [exact L|]); intros r Hr;
    apply Nat.eqb_eq || apply (proj1 (Nat.eqb_eq _ _)); apply H, Hr.
Qed.

(** A doubly nested [mapM] over [range(4)] builds a 4x4 matrix. *)
Lemma mapM_4x4 (f : nat -> nat -> result N) (out : state) :
  mapM (fun i => mapM (fun j => f i j) (range 4)) (range 4) = Ok out ->
  is_4x4 out = true.
Proof.
  intros E. apply is_4x4_iff. split.
  - exact (mapM_length _ _ _ E).
  - apply (mapM_Forall _ _ _ _ (fun i row Er => mapM_length _ _ _ Er) E).
Qed.

Lemma setitem_length {A : Type} (l : list A) (i : nat) (v : A) (l' : list A) :
  setitem l i v = Ok l' -> length l' = length l.
Proof.
  revert i l'. induction l as [|x l IH]; intros i l' E; cbn [setitem] in E.
  - discriminate E.
  - destruct i as [|i].
    + injection E as <-. reflexivity.
    + destruct (setitem l i v) as [t|] eqn:Et; [|discriminate E].
      cbn [bind] in E. injection E as <-. cbn [length].
      rewrite (IH i t Et). reflexivity.
Qed.

Lemma setitem_Forall {A : Type} (P : A -> Prop) (l : list A) (i : nat) (v : A)
      (l' : list A) :
  Forall P l -> P v -> setitem l i v = Ok l' -> Forall P l'.
Proof.
  intros F Pv. revert i l'. induction F as [|x l Px F IH]; intros i l' E;
    cbn [setitem] in E.
  - discriminate E.
  - destruct i as [|i].
    + injection E as <-. constructor; assumption.
    + destruct (setitem l i v) as [t|] eqn:Et; [|discriminate E].
      cbn [bind] in E. injection E as <-. constructor; [exact Px|].
      exact (IH i t Et).
Qed.

Lemma setitem2_4x4 (m : state) (row col : nat) (v : N) (m' : state) :
  is_4x4 m = true -> setitem2 m row col v = Ok m' -> is_4x4 m' = true.
Proof.
  rewrite !is_4x4_iff. intros (L & F) E. unfold setitem2 in E.
  destruct (getitem m row) as [r|] eqn:Er; [|discriminate E]. cbn [bind] in E.
  destruct (setitem r col v) as [r'|] eqn:Er'; [|discriminate E]. cbn [bind] in E.
  split.
  - rewrite (setitem_length _ _ _ _ E). exact L.
  - apply (setitem_Forall (fun r : list N => length r = 4) m row r' m' F);
      [|exact E].
    rewrite (setitem_length _ _ _ _ Er').
    unfold getitem in Er. destruct (nth_error m row) as [x|] eqn:En;
      [|discriminate Er]. injection Er as ->.
    rewrite Forall_forall in F. apply F. eapply nth_error_In. exact En.
Qed.

Lemma foldM_invariant {A S : Type} (I : S -> Prop) (body : S -> A -> result S)
      (l : list A) :
  (forall s x s', I s -> body s x = Ok s' -> I s') ->
  forall s s', I s -> foldM body l s = Ok s' -> I s'.
Proof.
  intros H. induction l as [|x l IH]; intros s s' Is E; cbn [foldM] in E.
  - injection E as <-. exact Is.
  - destruct (body s x) as [s1|] eqn:E1; [|discriminate E]. cbn [bind] in E.
    exact (IH s1 s' (H s x s1 Is E1) E).
Qed.

Lemma columnwise_4x4 (f : list N -> result (list N)) (st out : state) :
  columnwise f st = Ok out -> is_4x4 out = true.
Proof.
  unfold columnwise. intros E.
  refine (foldM_invariant (fun m => is_4x4 m = true) _ _ _ _ _ _ E);
    [|reflexivity].
  intros m col m' Im Eb.
  destruct (mapM _ (range 4)) as [column|]; [|discriminate Eb]. cbn [bind] in Eb.
  destruct (f column) as [new_column|]; [|discriminate Eb]. cbn [bind] in Eb.
  refine (foldM_invariant (fun m => is_4x4 m = true) _ _ _ _ _ Im Eb).
  intros m1 row m2 Im1 Es.
  destruct (getitem new_column row) as [v|]; [|discriminate Es]. cbn [bind] in Es.
  exact (setitem2_4x4 _ _ _ _ _ Im1 Es).
Qed.

End Shapes.

(** X3.  Whatever the shape of its arguments, each of [add_round_key],
    [xor_state], [mix_columns] and [inv_mix_columns] returns, when it
    returns at all, a matrix of exactly four rows of four entries: rows and
    columns beyond the fourth are ignored. *)
Theorem transforms_return_4x4 (st other out : state) :
  (AddRoundKey.add_round_key st other = Ok out -> is_4x4 out = true) /\
  (DiffAnalysis.xor_state st other = Ok out -> is_4x4 out = true) /\
  (MixColumns.mix_columns st = Ok out -> is_4x4 out = true) /\
  (InvMixColumns.inv_mix_columns st = Ok out -> is_4x4 out = true).
Proof.
  repeat split; intros E.
  - exact (mapM_4x4
             (fun i j => si <- getitem st i ;; sij <- getitem si j ;;
                         ki <- getitem other i ;; kij <- getitem ki j ;;
                         Ok (N.lxor sij kij)) out E).
  - exact (mapM_4x4
             (fun i j => r1 <- getitem st i ;; v1 <- getitem r1 j ;;
                         r2 <- getitem other i ;; v2 <- getitem r2 j ;;
                         Ok (N.lxor v1 v2)) out E).
  - rewrite mix_columns_columnwise in E. exact (columnwise_4x4 _ _ _ E).
  - rewrite inv_mix_columns_columnwise in E. exact (columnwise_4x4 _ _ _ E).
Qed.

Lemma transforms_return_4x4_witness :
  let st := [[1; 2; 3; 4; 99]; [5; 6; 7; 8]; [9; 10; 11; 12];
             [13; 14; 15; 16]; [0]]%N in
  let out := [[0; 0; 0; 0]; [0; 0; 0; 0]; [0; 0; 0; 0]; [0; 0; 0; 0]]%N in
  AddRoundKey.add_round_key st st = Ok out /\ is_4x4 out = true.
Proof.
  intros st out. split; [reflexivity|].
  apply (proj1 (transforms_return_4x4 st st out)). reflexivity.
Defined.

(** X4.  On 4x4 matrices of arbitrary integers [add_round_key] is an
    involution in its first argument and symmetric in its two arguments:
    adding the same round key twice gives the state back. *)
Theorem add_round_key_involution (st round_key : state) :
  is_4x4 st = true -> is_4x4 round_key = true ->
  (x <- AddRoundKey.add_round_key st round_key ;;
   AddRoundKey.add_round_key x round_key) = Ok st /\
  AddRoundKey.add_round_key st round_key = AddRoundKey.add_round_key round_key st.
Proof.
  intros Hs Hk.
  destruct (is_4x4_inv st Hs)
    as (a0 & a1 & a2 & a3 & b0 & b1 & b2 & b3 & c0 & c1 & c2 & c3
        & d0 & d1 & d2 & d3 & ->).
  destruct (is_4x4_inv round_key Hk)
    as (k0 & k1 & k2 & k3 & l0 & l1 & l2 & l3 & m0 & m1 & m2 & m3
        & n0 & n1 & n2 & n3 & ->).
  split.
  - cbv [AddRoundKey.add_round_key mapM range seq getitem nth_error bind].
    rewrite !lxor_twice. reflexivity.
  - cbv [AddRoundKey.add_round_key mapM range seq getitem nth_error bind].
    rewrite (N.lxor_comm a0), (N.lxor_comm a1), (N.lxor_comm a2), (N.lxor_comm a3),
            (N.lxor_comm b0), (N.lxor_comm b1), (N.lxor_comm b2), (N.lxor_comm b3),
            (N.lxor_comm c0), (N.lxor_comm c1), (N.lxor_comm c2), (N.lxor_comm c3),
            (N.lxor_comm d0), (N.lxor_comm d1), (N.lxor_comm d2), (N.lxor_comm d3).
    reflexivity.
Qed.

Lemma add_round_key_involution_witness :
  let st := [[0x132; 0x88; 0x31; 0xe0]; [0x43; 0x5a; 0x31; 0x37];
             [0xf6; 0x30; 0x98; 0x07]; [0xa8; 0x8d; 0xa2; 0x34]]%N in
  let rk := [[0x2b; 0x28; 0xab; 0x09]; [0x7e; 0xae; 0xf7; 0xcf];
             [0x15; 0xd2; 0x15; 0x4f]; [0x16; 0xa6; 0x88; 0x3c]]%N in
  is_4x4 st = true /\ is_4x4 rk = true /\
  (x <- AddRoundKey.add_round_key st rk ;; AddRoundKey.add_round_key x rk) = Ok st /\
  AddRoundKey.add_round_key st rk = AddRoundKey.add_round_key rk st.
Proof.
  intros st rk. split; [reflexivity | split; [reflexivity|]].
  apply (add_round_key_involution st rk); reflexivity.
Defined.

Section Differences.

Local Open Scope N_scope.

Lemma count_row_filter (row : list N) (count : nat) :
  fold_left (fun (count : nat) (byte : N) =>
               if negb (byte =? 0)%N then (count + 1)%nat else count)
            row count
  = (count + length (filter (fun v : N => negb (v =? 0)%N) row))%nat.
Proof.
  revert count. induction row as [|b row IH]; intros count;
    cbn [fold_left filter length].
  - lia.
  - rewrite IH. destruct (negb (b =? 0)); cbn [length]; lia.
Qed.

Lemma count_rows_filter (st : state) (count : nat) :
  fold_left (fun (count : nat) (row : list N) =>
    fold_left (fun (count : nat) (byte : N) =>
               if negb (byte =? 0)%N then (count + 1)%nat else count)
              row count) st count
  = (count + length (active_entries st))%nat.
Proof.
  unfold active_entries.
  revert count. induction st as [|row st IH]; intros count; cbn [fold_left concat].
  - cbn. lia.
  - rewrite IH, count_row_filter, filter_app, length_app. lia.
Qed.

(** The counter of the source is the number of non-zero entries. *)
Lemma count_active_bytes_filter (st : state) :
  DiffAnalysis.count_active_bytes st = length (active_entries st).
Proof.
  unfold DiffAnalysis.count_active_bytes. rewrite count_rows_filter. lia.
Qed.

Lemma no_active_entries (st : state) :
  DiffAnalysis.count_active_bytes st = 0%nat <-> Forall (fun v => v = 0) (concat st).
Proof.
  rewrite count_active_bytes_filter. unfold active_entries.
  induction (concat st) as [|v l IH]; cbn [filter].
  - split; [constructor | reflexivity].
  - destruct (N.eqb_spec v 0) as [->|NZ]; cbn [negb length].
    + rewrite IH. split; [intros F; constructor; [reflexivity | exact F]|].
      intros F. inversion F. assumption.
    + split; [discriminate|]. intros F. inversion F. contradiction.
Qed.

Lemma active_entries_rotate (k : nat) (r : list N) :
  length (filter (fun v : N => negb (v =? 0)%N) (slice_from r k ++ slice_to r k))
  = length (filter (fun v : N => negb (v =? 0)%N) r).
Proof.
  unfold slice_from, slice_to.
  rewrite filter_app, length_app, Nat.add_comm, <- length_app, <- filter_app.
  rewrite firstn_skipn. reflexivity.
Qed.

End Differences.

(** X5.  The difference of two 4x4 states has no active byte exactly when
    the two states are equal; in particular the difference of a state with
    itself has none. *)
Theorem no_active_bytes_iff_equal (state1 state2 : state) :
  is_4x4 state1 = true -> is_4x4 state2 = true ->
  exists diff,
    DiffAnalysis.xor_state state1 state2 = Ok diff /\
    (DiffAnalysis.count_active_bytes diff = 0 <-> state1 = state2).
Proof.
  intros H1 H2.
  destruct (is_4x4_inv state1 H1)
    as (a0 & a1 & a2 & a3 & b0 & b1 & b2 & b3 & c0 & c1 & c2 & c3
        & d0 & d1 & d2 & d3 & ->).
  destruct (is_4x4_inv state2 H2)
    as (k0 & k1 & k2 & k3 & l0 & l1 & l2 & l3 & m0 & m1 & m2 & m3
        & n0 & n1 & n2 & n3 & ->).
  eexists. split; [reflexivity|].
  rewrite no_active_entries. cbn [concat app].
  split.
  - intros F.
    repeat match goal with
           | H : Forall _ (_ :: _) |- _ => inversion H; clear H; subst
           end.
    repeat match goal with
           | H : N.lxor _ _ = 0%N |- _ => apply N.lxor_eq in H; subst
           end.
    reflexivity.
  - intros E. injection E as -> -> -> -> -> -> -> -> -> -> -> -> -> -> -> ->.
    rewrite !N.lxor_nilpotent. repeat constructor.
Qed.

Lemma no_active_bytes_iff_equal_witness :
  let st := [[0x32; 0x88; 0x31; 0xe0]; [0x43; 0x5a; 0x31; 0x37];
             [0xf6; 0x30; 0x98; 0x07]; [0xa8; 0x8d; 0xa2; 0x34]]%N in
  is_4x4 st = true /\
  exists diff,
    DiffAnalysis.xor_state st st = Ok diff /\
    (DiffAnalysis.count_active_bytes diff = 0 <-> st = st).
Proof.
  intros st. split; [reflexivity|].
  apply (no_active_bytes_iff_equal st st); reflexivity.
Defined.

(** X6.  AddRoundKey does not change a difference: the XOR of two 4x4
    states after the same round key was added to both is the XOR of the
    states before (the key cancels). *)
Theorem add_round_key_keeps_difference (state1 state2 round_key : state) :
  is_4x4 state1 = true -> is_4x4 state2 = true -> is_4x4 round_key = true ->
  (x <- AddRoundKey.add_round_key state1 round_key ;;
   y <- AddRoundKey.add_round_key state2 round_key ;;
   DiffAnalysis.xor_state x y)
  = DiffAnalysis.xor_state state1 state2.
Proof.
  intros H1 H2 Hk.
  destruct (is_4x4_inv state1 H1)
    as (a0 & a1 & a2 & a3 & b0 & b1 & b2 & b3 & c0 & c1 & c2 & c3
        & d0 & d1 & d2 & d3 & ->).
  destruct (is_4x4_inv state2 H2)
    as (e0 & e1 & e2 & e3 & f0 & f1 & f2 & f3 & g0 & g1 & g2 & g3
        & h0 & h1 & h2 & h3 & ->).
  destruct (is_4x4_inv round_key Hk)
    as (k0 & k1 & k2 & k3 & l0 & l1 & l2 & l3 & m0 & m1 & m2 & m3
        & n0 & n1 & n2 & n3 & ->).
  cbv [AddRoundKey.add_round_key DiffAnalysis.xor_state
       mapM range seq getitem nth_error bind].
  assert (C : forall a b k, N.lxor (N.lxor a k) (N.lxor b k) = N.lxor a b).
  { intros a b k. xor_solve. }
  rewrite !C. reflexivity.
Qed.

Lemma add_round_key_keeps_difference_witness :
  let s1 := [[0x32; 0x88; 0x31; 0xe0]; [0x43; 0x5a; 0x31; 0x37];
             [0xf6; 0x30; 0x98; 0x07]; [0xa8; 0x8d; 0xa2; 0x34]]%N in
  let s2 := [[0x33; 0x88; 0x31; 0xe0]; [0x43; 0x5a; 0x31; 0x37];
             [0xf6; 0x30; 0x98; 0x07]; [0xa8; 0x8d; 0xa2; 0x34]]%N in
  let rk := [[0x2b; 0x28; 0xab; 0x09]; [0x7e; 0xae; 0xf7; 0xcf];
             [0x15; 0xd2; 0x15; 0x4f]; [0x16; 0xa6; 0x88; 0x3c]]%N in
  is_4x4 s1 = true /\ is_4x4 s2 = true /\ is_4x4 rk = true /\
  (x <- AddRoundKey.add_round_key s1 rk ;;
   y <- AddRoundKey.add_round_key s2 rk ;;
   DiffAnalysis.xor_state x y)
  = DiffAnalysis.xor_state s1 s2.
Proof.
  intros s1 s2 rk. repeat (split; [reflexivity|]).
  apply (add_round_key_keeps_difference s1 s2 rk); reflexivity.
Defined.

(** X7.  ShiftRows only moves bytes: on a matrix of four rows (of any
    length) it keeps the number of active bytes, and on 4x4 states it
    commutes with taking the difference. *)
Theorem shift_rows_moves_difference (r0 r1 r2 r3 : list N) (state1 state2 : state) :
  (exists shifted,
     ShiftRows.shift_rows [r0; r1; r2; r3] = Ok shifted /\
     DiffAnalysis.count_active_bytes shifted
     = DiffAnalysis.count_active_bytes [r0; r1; r2; r3]) /\
  (is_4x4 state1 = true -> is_4x4 state2 = true ->
   (x <- ShiftRows.shift_rows state1 ;;
    y <- ShiftRows.shift_rows state2 ;;
    DiffAnalysis.xor_state x y)
   = (d <- DiffAnalysis.xor_state state1 state2 ;; ShiftRows.shift_rows d)).
Proof.
  split.
  - exists [slice_from r0 0; slice_from r1 1 ++ slice_to r1 1;
            slice_from r2 2 ++ slice_to r2 2; slice_from r3 3 ++ slice_to r3 3].
    split; [reflexivity|].
    rewrite !count_active_bytes_filter. unfold active_entries. cbn [concat].
    change (slice_from r0 0) with r0.
    set (q1 := slice_from r1 1 ++ slice_to r1 1).
    set (q2 := slice_from r2 2 ++ slice_to r2 2).
    set (q3 := slice_from r3 3 ++ slice_to r3 3).
    rewrite !filter_app, !length_app. subst q1 q2 q3.
    rewrite (active_entries_rotate 1), (active_entries_rotate 2),
            (active_entries_rotate 3).
    reflexivity.
  - intros H1 H2.
    destruct (is_4x4_inv state1 H1)
      as (a0 & a1 & a2 & a3 & b0 & b1 & b2 & b3 & c0 & c1 & c2 & c3
          & d0 & d1 & d2 & d3 & ->).
    destruct (is_4x4_inv state2 H2)
      as (e0 & e1 & e2 & e3 & f0 & f1 & f2 & f3 & g0 & g1 & g2 & g3
          & h0 & h1 & h2 & h3 & ->).
    reflexivity.
Qed.

Lemma shift_rows_moves_difference_witness :
  let s1 := [[0x32; 0x88; 0x31; 0xe0]; [0x43; 0x5a; 0x31; 0x37];
             [0xf6; 0x30; 0x98; 0x07]; [0xa8; 0x8d; 0xa2; 0x34]]%N in
  let s2 := [[0x33; 0x88; 0x31; 0xe0]; [0x43; 0x5a; 0x31; 0x37];
             [0xf6; 0x30; 0x98; 0x07]; [0xa8; 0x8d; 0xa2; 0x34]]%N in
  is_4x4 s1 = true /\ is_4x4 s2 = true /\
  (x <- ShiftRows.shift_rows s1 ;;
   y <- ShiftRows.shift_rows s2 ;;
   DiffAnalysis.xor_state x y)
  = (d <- DiffAnalysis.xor_state s1 s2 ;; ShiftRows.shift_rows d).
Proof.
  intros s1 s2. repeat (split; [reflexivity|]).
  apply (proj2 (shift_rows_moves_difference [] [] [] [] s1 s2)); reflexivity.
Defined.

(** Equality of two explicit matrices, entry by entry. *)
Ltac matrix_eq tac :=
  repeat match goal with
         | |- Ok _ = Ok _ => apply f_equal
         | |- cons _ _ = cons _ _ => apply f_equal2
         | |- nil = nil => reflexivity
         end;
  tac.

(** X8.  MixColumns and InvMixColumns are linear over XOR on 4x4 matrices of
    arbitrary integers: the transform of a difference is the difference of
    the transforms, so a difference goes through them independently of the
    states that carry it. *)
Theorem mix_columns_linear (state1 state2 : state) :
  is_4x4 state1 = true -> is_4x4 state2 = true ->
  (d <- DiffAnalysis.xor_state state1 state2 ;; MixColumns.mix_columns d)
  = (x <- MixColumns.mix_columns state1 ;;
     y <- MixColumns.mix_columns state2 ;;
     DiffAnalysis.xor_state x y) /\
  (d <- DiffAnalysis.xor_state state1 state2 ;; InvMixColumns.inv_mix_columns d)
  = (x <- InvMixColumns.inv_mix_columns state1 ;;
     y <- InvMixColumns.inv_mix_columns state2 ;;
     DiffAnalysis.xor_state x y).
Proof.
  intros H1 H2.
  destruct (is_4x4_inv state1 H1)
    as (a0 & a1 & a2 & a3 & b0 & b1 & b2 & b3 & c0 & c1 & c2 & c3
        & d0 & d1 & d2 & d3 & ->).
  destruct (is_4x4_inv state2 H2)
    as (e0 & e1 & e2 & e3 & f0 & f1 & f2 & f3 & g0 & g1 & g2 & g3
        & h0 & h1 & h2 & h3 & ->).
  split.
  - cbv - [N.lxor MixColumns.gf_mult].
    rewrite !gf_mult_lxor. matrix_eq xor_solve.
  - cbv - [N.lxor MixColumns.gf_mult InvMixColumns.gf_mult].
    change InvMixColumns.gf_mult with MixColumns.gf_mult.
    rewrite !gf_mult_lxor. matrix_eq xor_solve.
Qed.

Lemma mix_columns_linear_witness :
  let s1 := [[0x32; 0x88; 0x31; 0xe0]; [0x43; 0x5a; 0x31; 0x37];
             [0xf6; 0x30; 0x98; 0x07]; [0xa8; 0x8d; 0xa2; 0x34]]%N in
  let s2 := [[0x33; 0x88; 0x31; 0xe0]; [0x43; 0x5a; 0x31; 0x37];
             [0xf6; 0x30; 0x98; 0x07]; [0xa8; 0x8d; 0xa2; 0x34]]%N in
  is_4x4 s1 = true /\ is_4x4 s2 = true /\
  (d <- DiffAnalysis.xor_state s1 s2 ;; MixColumns.mix_columns d)
  = (x <- MixColumns.mix_columns s1 ;;
     y <- MixColumns.mix_columns s2 ;;
     DiffAnalysis.xor_state x y).
Proof.
  intros s1 s2. repeat (split; [reflexivity|]).
  apply (proj1 (mix_columns_linear s1 s2 eq_refl eq_refl)).
Defined.

Section FieldLaws.

Local Open Scope N_scope.

Lemma forall_bytes2 (P : N -> N -> bool) :
  forallb (fun a => forallb (P a) all_bytes) all_bytes = true ->
  forall a b, a < 256 -> b < 256 -> P a b = true.
Proof.
  intros H a b Ha Hb.
  pose proof (forall_bytes (fun a => forallb (P a) all_bytes) H Ha) as Hrow.
  exact (forall_bytes (P a) Hrow Hb).
Qed.

Lemma xtime_0 : MixColumns.xtime 0 = 0.
Proof. reflexivity. Qed.

Lemma gf_mult_digits_0 (p : positive) (r : N) :
  MixColumns.gf_mult_digits r 0 p = r.
Proof.
  revert r. induction p as [p IH|p IH|]; intros r; cbn [MixColumns.gf_mult_digits];
    rewrite ?xtime_0, ?N.lxor_0_r; auto.
Qed.

End FieldLaws.

(** X9.  The laws of [gf_mult] that hold for all integers: it is linear
    over XOR in its second argument, zero is absorbing on both sides, one
    is a right unit, multiplying by two is [xtime], and the product of a
    byte with anything is a byte ([xtime] returns a byte on every integer). *)
Theorem gf_mult_laws (a x y : N) :
  MixColumns.gf_mult a (N.lxor x y)
  = N.lxor (MixColumns.gf_mult a x) (MixColumns.gf_mult a y) /\
  MixColumns.gf_mult a 0 = 0%N /\
  MixColumns.gf_mult 0 x = 0%N /\
  MixColumns.gf_mult a 1 = a /\
  MixColumns.gf_mult a 2 = MixColumns.xtime a /\
  (MixColumns.xtime a < 256)%N /\
  ((a < 256)%N -> (MixColumns.gf_mult a x < 256)%N).
Proof.
  refine (conj _ (conj _ (conj _ (conj _ (conj _ (conj _ _)))))).
  - apply gf_mult_lxor.
  - reflexivity.
  - destruct x as [|p]; [reflexivity|].
    unfold MixColumns.gf_mult, MixColumns.gf_mult_loop. apply gf_mult_digits_0.
  - apply gf_mult_1.
  - unfold MixColumns.gf_mult. cbn [MixColumns.gf_mult_loop MixColumns.gf_mult_digits].
    apply N.lxor_0_l.
  - apply xtime_byte.
  - intros Ha. apply gf_mult_byte. exact Ha.
Qed.

Lemma gf_mult_laws_witness :
  (0x57 < 256)%N /\ (MixColumns.gf_mult 0x57 0x1234 < 256)%N.
Proof.
  split; [reflexivity|].
  apply (proj2 (proj2 (proj2 (proj2 (proj2 (proj2 (gf_mult_laws 0x57 0x1234 0))))))).
  reflexivity.
Defined.

(** X10.  On bytes [gf_mult] is the multiplication of a field: it is
    commutative, one is a unit on both sides, a product of two non-zero
    bytes is never zero, and every non-zero byte has an inverse byte. *)
Theorem gf_mult_field (a b : N) :
  (a < 256)%N -> (b < 256)%N ->
  MixColumns.gf_mult a b = MixColumns.gf_mult b a /\
  MixColumns.gf_mult 1 b = b /\
  (a <> 0%N -> b <> 0%N -> MixColumns.gf_mult a b <> 0%N) /\
  (a <> 0%N ->
   exists c, (c < 256)%N /\ MixColumns.gf_mult a c = 1%N).
Proof.
  intros Ha Hb. refine (conj _ (conj _ (conj _ _))).
  - apply N.eqb_eq.
    apply (forall_bytes2
             (fun a b => (MixColumns.gf_mult a b =? MixColumns.gf_mult b a)%N));
      [vm_compute; reflexivity | exact Ha | exact Hb].
  - apply N.eqb_eq.
    apply (forall_bytes (fun b => (MixColumns.gf_mult 1 b =? b)%N));
      [vm_compute; reflexivity | exact Hb].
  - intros NA NB E.
    assert (H : ((a =? 0) || (b =? 0) || negb (MixColumns.gf_mult a b =? 0))%N = true).
    { apply (forall_bytes2
               (fun a b => ((a =? 0) || (b =? 0)
                            || negb (MixColumns.gf_mult a b =? 0))%N));
        [vm_compute; reflexivity | exact Ha | exact Hb]. }
    rewrite E in H.
    apply N.eqb_neq in NA. apply N.eqb_neq in NB. rewrite NA, NB in H.
    discriminate H.
  - intros NA.
    assert (H : ((a =? 0)
                 || existsb (fun c => MixColumns.gf_mult a c =? 1) all_bytes)%N = true).
    { apply (forall_bytes
               (fun a => ((a =? 0)
                          || existsb (fun c => MixColumns.gf_mult a c =? 1)
                                     all_bytes)%N));
        [vm_compute; reflexivity | exact Ha]. }
    apply N.eqb_neq in NA. rewrite NA in H. cbn [orb] in H.
    apply existsb_exists in H. destruct H as (c & Hc & E).
    exists c. split; [|apply N.eqb_eq, E].
    unfold all_bytes in Hc. apply in_map_iff in Hc.
    destruct Hc as (k & <- & Hk). apply in_seq in Hk. lia.
Qed.

Lemma gf_mult_field_witness :
  (0x57 < 256)%N /\ (0x83 < 256)%N /\
  MixColumns.gf_mult 0x57 0x83 = MixColumns.gf_mult 0x83 0x57.
Proof.
  split; [reflexivity | split; [reflexivity|]].
  apply (proj1 (gf_mult_field 0x57 0x83 eq_refl eq_refl)).
Defined.


Lemma mix_columns_spreads (r c : nat) (s : N) :
  r < 4 -> c < 4 -> (s < 256)%N ->
  spreads_to_four MixColumns.mix_columns r c s = true /\
  spreads_to_four InvMixColumns.inv_mix_columns r c s = true.
Proof.
  intros Hr Hc. revert s.
  destruct r as [|[|[|[|r]]]]; [| | | |lia];
    (destruct c as [|[|[|[|c]]]]; [| | | |lia]);
    intros s Hs; split;
    (revert s Hs; apply forall_bytes; vm_compute; reflexivity).
Qed.

(** X11.  Diffusion of MixColumns and of its inverse: a difference confined
    to one non-zero byte, at any position of the state, comes out as
    exactly four active bytes. *)
Theorem mix_columns_spreads_one_byte (r c : nat) (s : N) :
  r < 4 -> c < 4 -> (0 < s < 256)%N ->
  (exists out,
     MixColumns.mix_columns (single_byte_state r c s) = Ok out /\
     DiffAnalysis.count_active_bytes out = 4) /\
  (exists out,
     InvMixColumns.inv_mix_columns (single_byte_state r c s) = Ok out /\
     DiffAnalysis.count_active_bytes out = 4).
Proof.
  intros Hr Hc (Hs0 & Hs).
  destruct (mix_columns_spreads r c s Hr Hc Hs) as (M & I).
  unfold spreads_to_four in M, I.
  assert (NZ : (s =? 0)%N = false) by (apply N.eqb_neq; lia).
  rewrite NZ in M, I. cbn [orb] in M, I.
  split.
  - destruct (MixColumns.mix_columns (single_byte_state r c s)) as [out|];
      [|discriminate M].
    exists out. split; [reflexivity | apply Nat.eqb_eq, M].
  - destruct (InvMixColumns.inv_mix_columns (single_byte_state r c s)) as [out|];
      [|discriminate I].
    exists out. split; [reflexivity | apply Nat.eqb_eq, I].
Qed.

Lemma mix_columns_spreads_one_byte_witness :
  2 < 4 /\ 1 < 4 /\ (0 < 0x01 < 256)%N /\
  exists out,
    MixColumns.mix_columns (single_byte_state 2 1 0x01) = Ok out /\
    DiffAnalysis.count_active_bytes out = 4.
Proof.
  split; [lia | split; [lia | split; [lia|]]].
  apply (proj1 (mix_columns_spreads_one_byte 2 1 0x01
                  ltac:(lia) ltac:(lia) ltac:(lia))).
Defined.

Section MixForward.

Local Open Scope N_scope.
Import MixColumns.

(** The product of the forward matrix with the inverse one, entry by
    entry, checked on the 256 byte values. *)
Lemma remix_diag (s : N) : s < 256 ->
  N.lxor (N.lxor (N.lxor (gf_mult 0x02 (gf_mult 0x0e s)) (gf_mult 0x03 (gf_mult 0x09 s)))
                 (gf_mult 0x0d s)) (gf_mult 0x0b s) = s.
Proof.
  revert s.
  apply (forall_bytes_eq
           (fun s => N.lxor (N.lxor (N.lxor (gf_mult 0x02 (gf_mult 0x0e s))
                                            (gf_mult 0x03 (gf_mult 0x09 s)))
                                    (gf_mult 0x0d s)) (gf_mult 0x0b s))
           (fun s => s)).
  vm_compute. reflexivity.
Qed.

Lemma remix_off1 (s : N) : s < 256 ->
  N.lxor (N.lxor (N.lxor (gf_mult 0x02 (gf_mult 0x0b s)) (gf_mult 0x03 (gf_mult 0x0e s)))
                 (gf_mult 0x09 s)) (gf_mult 0x0d s) = 0.
Proof.
  revert s.
  apply (forall_bytes_eq
           (fun s => N.lxor (N.lxor (N.lxor (gf_mult 0x02 (gf_mult 0x0b s))
                                            (gf_mult 0x03 (gf_mult 0x0e s)))
                                    (gf_mult 0x09 s)) (gf_mult 0x0d s))
           (fun _ => 0)).
  vm_compute. reflexivity.
Qed.

Lemma remix_off2 (s : N) : s < 256 ->
  N.lxor (N.lxor (N.lxor (gf_mult 0x02 (gf_mult 0x0d s)) (gf_mult 0x03 (gf_mult 0x0b s)))
                 (gf_mult 0x0e s)) (gf_mult 0x09 s) = 0.
Proof.
  revert s.
  apply (forall_bytes_eq
           (fun s => N.lxor (N.lxor (N.lxor (gf_mult 0x02 (gf_mult 0x0d s))
                                            (gf_mult 0x03 (gf_mult 0x0b s)))
                                    (gf_mult 0x0e s)) (gf_mult 0x09 s))
           (fun _ => 0)).
  vm_compute. reflexivity.
Qed.

Lemma remix_off3 (s : N) : s < 256 ->
  N.lxor (N.lxor (N.lxor (gf_mult 0x02 (gf_mult 0x09 s)) (gf_mult 0x03 (gf_mult 0x0d s)))
                 (gf_mult 0x0b s)) (gf_mult 0x0e s) = 0.
Proof.
  revert s.
  apply (forall_bytes_eq
           (fun s => N.lxor (N.lxor (N.lxor (gf_mult 0x02 (gf_mult 0x09 s))
                                            (gf_mult 0x03 (gf_mult 0x0d s)))
                                    (gf_mult 0x0b s)) (gf_mult 0x0e s))
           (fun _ => 0)).
  vm_compute. reflexivity.
Qed.

(** One column: the forward transform undoes the inverse one. *)
Lemma remix_single_column (s0 s1 s2 s3 : N) :
  s0 < 256 -> s1 < 256 -> s2 < 256 -> s3 < 256 ->
  (c <- InvMixColumns.inv_mix_single_column [s0; s1; s2; s3] ;;
   mix_single_column c) = Ok [s0; s1; s2; s3].
Proof.
  intros H0 H1 H2 H3.
  pose proof (remix_diag s0 H0) as D0. pose proof (remix_diag s1 H1) as D1.
  pose proof (remix_diag s2 H2) as D2. pose proof (remix_diag s3 H3) as D3.
  pose proof (remix_off1 s0 H0) as A0. pose proof (remix_off1 s1 H1) as A1.
  pose proof (remix_off1 s2 H2) as A2. pose proof (remix_off1 s3 H3) as A3.
  pose proof (remix_off2 s0 H0) as B0. pose proof (remix_off2 s1 H1) as B1.
  pose proof (remix_off2 s2 H2) as B2. pose proof (remix_off2 s3 H3) as B3.
  pose proof (remix_off3 s0 H0) as C0. pose proof (remix_off3 s1 H1) as C1.
  pose proof (remix_off3 s2 H2) as C2. pose proof (remix_off3 s3 H3) as C3.
  cbn [mix_single_column bind InvMixColumns.inv_mix_single_column].
  change InvMixColumns.gf_mult with gf_mult.
  rewrite !gf_mult_lxor.
  f_equal. f_equal; [|f_equal; [|f_equal; [|f_equal]]].
  - aac_rewrite D0. aac_rewrite A1. aac_rewrite B2. aac_rewrite C3. aac_reflexivity.
  - aac_rewrite C0. aac_rewrite D1. aac_rewrite A2. aac_rewrite B3. aac_reflexivity.
  - aac_rewrite B0. aac_rewrite C1. aac_rewrite D2. aac_rewrite A3. aac_reflexivity.
  - aac_rewrite A0. aac_rewrite B1. aac_rewrite C2. aac_rewrite D3. aac_reflexivity.
Qed.

Lemma inv_mix_single_column_undone (s0 s1 s2 s3 : N) :
  s0 < 256 -> s1 < 256 -> s2 < 256 -> s3 < 256 ->
  exists x y z w,
    InvMixColumns.inv_mix_single_column [s0; s1; s2; s3] = Ok [x; y; z; w] /\
    (x < 256 /\ y < 256 /\ z < 256 /\ w < 256) /\
    mix_single_column [x; y; z; w] = Ok [s0; s1; s2; s3].
Proof.
  intros H0 H1 H2 H3.
  pose proof (remix_single_column s0 s1 s2 s3 H0 H1 H2 H3) as U.
  destruct (@inv_mix_single_column_total s0 s1 s2 s3 H0 H1 H2 H3)
    as (x & y & z & w & E & B).
  exists x, y, z, w. rewrite E in U. cbn [bind] in U. auto.
Qed.

Lemma inv_mix_columns_undone :
  undoes InvMixColumns.inv_mix_columns MixColumns.mix_columns.
Proof.
  intros st H.
  destruct (is_state_inv st H) as (r0 & r1 & r2 & r3 & -> & R0 & R1 & R2 & R3).
  destruct (is_row_inv r0 R0) as (a0 & a1 & a2 & a3 & -> & Ha0 & Ha1 & Ha2 & Ha3).
  destruct (is_row_inv r1 R1) as (b0 & b1 & b2 & b3 & -> & Hb0 & Hb1 & Hb2 & Hb3).
  destruct (is_row_inv r2 R2) as (c0 & c1 & c2 & c3 & -> & Hc0 & Hc1 & Hc2 & Hc3).
  destruct (is_row_inv r3 R3) as (d0 & d1 & d2 & d3 & -> & Hd0 & Hd1 & Hd2 & Hd3).
  destruct (inv_mix_single_column_undone a0 b0 c0 d0 Ha0 Hb0 Hc0 Hd0)
    as (x0 & y0 & z0 & w0 & F0 & (? & ? & ? & ?) & G0).
  destruct (inv_mix_single_column_undone a1 b1 c1 d1 Ha1 Hb1 Hc1 Hd1)
    as (x1 & y1 & z1 & w1 & F1 & (? & ? & ? & ?) & G1).
  destruct (inv_mix_single_column_undone a2 b2 c2 d2 Ha2 Hb2 Hc2 Hd2)
    as (x2 & y2 & z2 & w2 & F2 & (? & ? & ? & ?) & G2).
  destruct (inv_mix_single_column_undone a3 b3 c3 d3 Ha3 Hb3 Hc3 Hd3)
    as (x3 & y3 & z3 & w3 & F3 & (? & ? & ? & ?) & G3).
  exists [[x0; x1; x2; x3]; [y0; y1; y2; y3]; [z0; z1; z2; z3]; [w0; w1; w2; w3]].
  split; [|split].
  - rewrite inv_mix_columns_columnwise.
    apply (@columnwise_explicit InvMixColumns.inv_mix_single_column); assumption.
  - state_bounds assumption.
  - rewrite mix_columns_columnwise.
    apply (@columnwise_explicit MixColumns.mix_single_column); assumption.
Qed.

End MixForward.

(** X12.  MixColumns also undoes InvMixColumns: on every 4x4 state of bytes
    [inv_mix_columns] returns a state of bytes whose [mix_columns] is the
    original state, so the two transforms are inverse bijections. *)
Theorem mix_columns_inv_mix_columns (st : state) :
  is_state st = true ->
  exists unmixed,
    InvMixColumns.inv_mix_columns st = Ok unmixed /\
    is_state unmixed = true /\
    MixColumns.mix_columns unmixed = Ok st.
Proof. intros H. exact (inv_mix_columns_undone st H). Qed.

Lemma mix_columns_inv_mix_columns_witness :
  let st := [[0x04; 0xe0; 0x48; 0x28]; [0x66; 0xcb; 0xf8; 0x06];
             [0x81; 0x19; 0xd3; 0x26]; [0xe5; 0x9a; 0x7a; 0x4c]]%N in
  is_state st = true /\
  exists unmixed,
    InvMixColumns.inv_mix_columns st = Ok unmixed /\
    is_state unmixed = true /\
    MixColumns.mix_columns unmixed = Ok st.
Proof.
  intros st. split; [reflexivity|].
  apply (mix_columns_inv_mix_columns st). reflexivity.
Defined.

Section StateBytes.

Local Open Scope N_scope.

Lemma to_byte_error (v : N) (e : error) : to_byte v = Err e -> e = ValueError.
Proof.
  unfold to_byte. destruct (Byte.of_N v); [discriminate|].
  intros E. injection E as <-. reflexivity.
Qed.

Lemma to_byte_big (v : N) : 255 < v -> to_byte v = Err ValueError.
Proof.
  intros Hv. unfold to_byte.
  destruct (Byte.of_N v) as [b|] eqn:E; [|reflexivity].
  apply Byte.to_of_N in E. pose proof (Byte.to_N_bounded b). lia.
Qed.

(** [bytes()] of a list holding an integer above 255 raises [ValueError]. *)
Lemma py_bytes_big (ints : list N) :
  Exists (fun v => 255 < v) ints -> py_bytes ints = Err ValueError.
Proof.
  unfold py_bytes. induction ints as [|v ints IH]; intros Ex.
  - inversion Ex.
  - cbn [mapM]. destruct (to_byte v) as [b|e] eqn:Ev.
    + cbn [bind]. inversion Ex as [? ? Hv|? ? Ht]; subst.
      * rewrite (to_byte_big v Hv) in Ev. discriminate Ev.
      * rewrite (IH Ht). reflexivity.
    + cbn [bind]. rewrite (to_byte_error v e Ev). reflexivity.
Qed.

End StateBytes.

(** X13.  The byte/state conversions are mutually inverse: a buffer of at
    least 16 bytes loads into a state of bytes that stores back to its
    first 16 bytes (bytes beyond the 16th are never read), and a 4x4 state
    of bytes stores into 16 bytes that load back to the same state. *)
Theorem bytes_state_round_trips (data : bytes) (st : state) :
  (16 <= length data ->
   exists loaded,
     AesEncrypt.bytes_to_state data = Ok loaded /\ is_state loaded = true /\
     AesEncrypt.state_to_bytes loaded = Ok (firstn 16 data)) /\
  (is_state st = true ->
   exists stored,
     AesEncrypt.state_to_bytes st = Ok stored /\ length stored = 16 /\
     AesEncrypt.bytes_to_state stored = Ok st).
Proof.
  split.
  - intros L. rewrite (@bytes_to_state_prefix data L).
    apply bytes_to_state_total. rewrite length_firstn. lia.
  - apply state_to_bytes_total.
Qed.

Lemma bytes_state_round_trips_witness :
  16 <= length (test_plaintext ++ test_key) /\
  exists loaded,
    AesEncrypt.bytes_to_state (test_plaintext ++ test_key) = Ok loaded /\
    is_state loaded = true /\
    AesEncrypt.state_to_bytes loaded = Ok (firstn 16 (test_plaintext ++ test_key)).
Proof.
  split; [cbn; lia|].
  apply (proj1 (bytes_state_round_trips (test_plaintext ++ test_key) [])).
  cbn. lia.
Defined.

(** X14.  [state_to_bytes] rejects integers that are not bytes: on a 4x4
    matrix with an entry above 255 it raises [ValueError], and on a matrix
    with fewer than four rows it raises [IndexError]. *)
Theorem state_to_bytes_errors (st : state) :
  (is_4x4 st = true -> has_big_entry st = true ->
   AesEncrypt.state_to_bytes st = Err ValueError) /\
  (length st < 4 -> AesEncrypt.state_to_bytes st = Err IndexError).
Proof.
  split.
  - intros H Big.
    destruct (is_4x4_inv st H)
      as (a0 & a1 & a2 & a3 & b0 & b1 & b2 & b3 & c0 & c1 & c2 & c3
          & d0 & d1 & d2 & d3 & ->).
    cbv [AesEncrypt.state_to_bytes foldM range seq getitem nth_error bind app].
    rewrite py_bytes_big; [reflexivity|].
    cbn [has_big_entry existsb] in Big.
    rewrite !orb_true_iff, !N.ltb_lt in Big.
    rewrite !Exists_cons.
    intuition (try discriminate).
  - intros L.
    destruct st as [|r0 st]; [reflexivity|].
    destruct st as [|r1 st]; [destruct r0; reflexivity|].
    destruct st as [|r2 st]; [destruct r0, r1; reflexivity|].
    destruct st as [|r3 st]; [destruct r0, r1, r2; reflexivity|].
    cbn [length] in L. lia.
Qed.

Lemma state_to_bytes_errors_witness :
  let st := [[1; 2; 3; 4]; [5; 6; 0x100; 8]; [9; 10; 11; 12]; [13; 14; 15; 16]]%N in
  is_4x4 st = true /\ has_big_entry st = true /\
  AesEncrypt.state_to_bytes st = Err ValueError.
Proof.
  intros st. split; [reflexivity | split; [reflexivity|]].
  apply (proj1 (state_to_bytes_errors st)); reflexivity.
Defined.

(** X15.  Padding round trip without any encryption: [pad] always returns,
    the padded message is a whole number of blocks, one more than the
    message has full blocks, and the padding removal of [decrypt] gives the
    message back. *)
Theorem remove_padding_undoes_pad (m : bytes) :
  exists padded,
    AesEncrypt.pad m = Ok padded /\
    length padded = 16 * (length m / 16 + 1) /\
    AesDecrypt.remove_padding padded = Ok m.
Proof.
  destruct (pad_total m) as (b & Hb & E).
  destruct (padding_len_bounds m) as (B & L).
  exists (m ++ repeat b (AesEncrypt.padding_len m)).
  split; [exact E | split].
  - rewrite length_app, repeat_length. exact L.
  - apply (@remove_padding_pad m b (AesEncrypt.padding_len m) B Hb).
Qed.

(** X16.  The padding removal never strips more than a well-formed pad: on
    the empty buffer it raises [IndexError]; on a non-empty buffer it
    returns a prefix of the buffer, and the part it drops is at most 16
    bytes long, each equal to the trailing byte of the buffer. *)
Theorem remove_padding_strips_only_pad (buf : bytes) :
  AesDecrypt.remove_padding [] = Err IndexError /\
  (buf <> [] ->
   exists out dropped,
     AesDecrypt.remove_padding buf = Ok out /\
     buf = out ++ dropped /\
     length dropped <= 16 /\
     Forall (fun b => Byte.to_N b = trailing_byte buf) dropped).
Proof.
  split; [reflexivity|]. intros NE.
  rewrite (@remove_padding_spec buf NE).
  destruct (trailer_malformed buf) eqn:M.
  - exists buf, []. rewrite app_nil_r. repeat split; [cbn; lia | constructor].
  - exists (strip_trailer buf), (last_bytes (N.to_nat (trailing_byte buf)) buf).
    unfold trailer_malformed in M. apply orb_false_iff in M.
    destruct M as (M1 & M3). apply orb_false_iff in M1. destruct M1 as (M1 & M2).
    apply negb_false_iff in M3. apply N.ltb_ge in M2.
    rewrite forallb_forall in M3.
    split; [reflexivity | split; [|split]].
    + rewrite last_bytes_eq, strip_trailer_eq.
      unfold slice_to_neg, slice_from_neg. symmetry. apply firstn_skipn.
    + rewrite last_bytes_eq. unfold slice_from_neg. rewrite length_skipn. lia.
    + apply Forall_forall. intros b Hb. apply N.eqb_eq, M3, Hb.
Qed.

Lemma remove_padding_strips_only_pad_witness :
  [x41; x03; x03; x03]%byte <> [] /\
  exists out dropped,
    AesDecrypt.remove_padding [x41; x03; x03; x03]%byte = Ok out /\
    [x41; x03; x03; x03]%byte = out ++ dropped /\
    length dropped <= 16 /\
    Forall (fun b => Byte.to_N b = trailing_byte [x41; x03; x03; x03]%byte) dropped.
Proof.
  split; [discriminate|].
  apply (proj2 (remove_padding_strips_only_pad [x41; x03; x03; x03]%byte)).
  discriminate.
Defined.

Section BlockLoop.

Variable f : bytes -> result bytes.

Lemma range3_step (n : nat) :
  0 < n ->
  range3 0 n 16 = 0 :: map (fun i => i + 16) (range3 0 (n - 16) 16).
Proof.
  intros Hn. unfold range3. rewrite !Nat.sub_0_r.
  assert (E : (n + 16 - 1) / 16 = S ((n - 16 + 16 - 1) / 16)).
  { destruct (Nat.le_gt_cases 16 n) as [H|H].
    - replace (n + 16 - 1) with (1 * 16 + (n - 16 + 16 - 1)) by lia.
      rewrite Nat.div_add_l by discriminate. reflexivity.
    - replace (n - 16 + 16 - 1) with 15 by lia.
      change (15 / 16) with 0.
      symmetry. apply Nat.div_unique with (r := n - 1); lia. }
  rewrite E. cbn [seq map]. f_equal.
  rewrite <- seq_shift, !map_map. apply map_ext. intros k. lia.
Qed.

Lemma foldM_map {A B S : Type} (body : S -> B -> result S) (g : A -> B)
      (l : list A) (s : S) :
  foldM body (map g l) s = foldM (fun s x => body s (g x)) l s.
Proof.
  revert s. induction l as [|x l IH]; intros s; cbn [map foldM]; [reflexivity|].
  destruct (body s (g x)); cbn [bind]; [apply IH | reflexivity].
Qed.

Lemma foldM_ext {A S : Type} (body body' : S -> A -> result S) (l : list A) (s : S) :
  (forall s x, body s x = body' s x) -> foldM body l s = foldM body' l s.
Proof.
  intros H. revert s. induction l as [|x l IH]; intros s; cbn [foldM]; [reflexivity|].
  rewrite H. destruct (body' s x); cbn [bind]; [apply IH | reflexivity].
Qed.

Lemma block_loop_acc (data : bytes) (offsets : list nat) (pre acc : bytes) :
  foldM (fun acc i => c <- f (slice data i (i + 16)) ;; Ok (acc ++ c))
        offsets (pre ++ acc)
  = (r <- foldM (fun acc i => c <- f (slice data i (i + 16)) ;; Ok (acc ++ c))
               offsets acc ;;
     Ok (pre ++ r)).
Proof.
  revert acc. induction offsets as [|i offsets IH]; intros acc; cbn [foldM bind].
  - reflexivity.
  - destruct (f (slice data i (i + 16))) as [c|e]; cbn [bind]; [|reflexivity].
    rewrite <- app_assoc. apply IH.
Qed.

Lemma slice_shift (data : bytes) (i : nat) :
  slice data (i + 16) (i + 16 + 16) = slice (skipn 16 data) i (i + 16).
Proof.
  unfold slice. rewrite skipn_skipn.
  replace (i + 16 + 16 - (i + 16)) with (i + 16 - i) by lia. reflexivity.
Qed.

(** The block loop, one block at a time: the first 16 bytes are
    transformed, then the rest of the buffer. *)
Lemma block_loop_step (data : bytes) :
  data <> [] ->
  block_loop f data
  = (c <- f (firstn 16 data) ;; r <- block_loop f (skipn 16 data) ;; Ok (c ++ r)).
Proof.
  intros NE. unfold block_loop.
  rewrite range3_step by (destruct data; [contradiction | cbn; lia]).
  cbn [foldM]. unfold slice at 1. rewrite skipn_O.
  change (0 + 16 - 0) with 16.
  destruct (f (firstn 16 data)) as [c|e]; cbn [bind]; [|reflexivity].
  rewrite foldM_map.
  rewrite (foldM_ext _
             (fun acc i => c0 <- f (slice (skipn 16 data) i (i + 16)) ;;
                           Ok (acc ++ c0))).
  - rewrite length_skipn.
    rewrite <- (app_nil_r c) at 1. cbn [app]. apply block_loop_acc.
  - intros s x. rewrite slice_shift. reflexivity.
Qed.

Lemma block_loop_nil : block_loop f [] = Ok [].
Proof. reflexivity. Qed.

(** A buffer made of whole blocks followed by a second buffer: the loop
    runs over the first and then over the second. *)
Lemma block_loop_app (n : nat) :
  forall a b : bytes,
    length a = 16 * n ->
    block_loop f (a ++ b)
    = (x <- block_loop f a ;; y <- block_loop f b ;; Ok (x ++ y)).
Proof.
  induction n as [|n IH]; intros a b L.
  - destruct a; [|discriminate L]. cbn [app]. rewrite block_loop_nil. cbn [bind].
    destruct (block_loop f b); reflexivity.
  - assert (NE : a <> []) by (intros ->; discriminate L).
    assert (NE' : a ++ b <> []).
    { intros E. apply app_eq_nil in E. destruct E as (E & _). exact (NE E). }
    rewrite (block_loop_step (a ++ b) NE'), (block_loop_step a NE).
    rewrite firstn_app, skipn_app.
    replace (16 - length a) with 0 by lia.
    rewrite firstn_O, skipn_O, app_nil_r.
    destruct (f (firstn 16 a)) as [c|e]; cbn [bind]; [|reflexivity].
    rewrite (IH (skipn 16 a) b) by (rewrite length_skipn; lia).
    destruct (block_loop f (skipn 16 a)) as [x|e]; cbn [bind]; [|reflexivity].
    destruct (block_loop f b) as [y|e]; cbn [bind]; [|reflexivity].
    rewrite app_assoc. reflexivity.
Qed.

(** A buffer whose length is not a multiple of 16 ends in a short block;
    when whole blocks succeed and short blocks fail with [e], so does the
    loop. *)
Lemma block_loop_ragged (e : error) :
  (forall b, length b = 16 -> is_ok (f b) = true) ->
  (forall b, b <> [] -> length b < 16 -> f b = Err e) ->
  forall (n : nat) (data : bytes),
    length data < 16 * n -> length data mod 16 <> 0 ->
    block_loop f data = Err e.
Proof.
  intros Hfull Hshort. induction n as [|n IH]; intros data L M; [lia|].
  assert (NE : data <> []) by (intros ->; apply M; reflexivity).
  rewrite (block_loop_step data NE).
  destruct (Nat.le_gt_cases 16 (length data)) as [H|H].
  - pose proof (Hfull (firstn 16 data)) as F.
    rewrite length_firstn in F. specialize (F ltac:(lia)).
    destruct (f (firstn 16 data)) as [c|]; [|discriminate F]. cbn [bind].
    rewrite (IH (skipn 16 data)); [reflexivity | rewrite length_skipn; lia |].
    rewrite length_skipn.
    replace (length data) with ((length data - 16) + 1 * 16) in M by lia.
    rewrite Nat.Div0.mod_add in M. exact M.
  - rewrite firstn_all2 by lia. rewrite (Hshort data NE H). reflexivity.
Qed.

End BlockLoop.

Section Unaligned.

Lemma decrypt_block_short (block key : bytes) :
  length key = 16 -> length block < 16 ->
  AesDecrypt.decrypt_block block key = Err IndexError.
Proof.
  intros LK LB.
  destruct (@key_expansion_total key LK) as (rks & EK & _).
  unfold AesDecrypt.decrypt_block. rewrite EK. cbn [bind].
  change AesDecrypt.bytes_to_state with AesEncrypt.bytes_to_state.
  rewrite (@bytes_to_state_short block LB). reflexivity.
Qed.

End Unaligned.

(** X17.  A ciphertext whose length is not a multiple of 16 makes [decrypt]
    raise [IndexError]: under a 16-byte key every whole block is decrypted
    and the short last block then fails in [bytes_to_state]. *)
Theorem decrypt_unaligned_fails (ciphertext key : bytes) :
  length key = 16 -> length ciphertext mod 16 <> 0 ->
  AesDecrypt.decrypt ciphertext key = Err IndexError.
Proof.
  intros LK M. unfold AesDecrypt.decrypt.
  rewrite decrypt_blocks_loop.
  rewrite (block_loop_ragged (fun b => AesDecrypt.decrypt_block b key) IndexError)
    with (n := S (length ciphertext)).
  - reflexivity.
  - intros b Lb. destruct (@decrypt_block_total b key Lb LK) as (p & -> & _).
    reflexivity.
  - intros b _ Lb. exact (decrypt_block_short b key LK Lb).
  - lia.
  - exact M.
Qed.

Lemma decrypt_unaligned_fails_witness :
  length test_key = 16 /\ length (test_ciphertext ++ [x00]%byte) mod 16 <> 0 /\
  AesDecrypt.decrypt (test_ciphertext ++ [x00]%byte) test_key = Err IndexError.
Proof.
  split; [reflexivity | split; [cbn; discriminate|]].
  apply (decrypt_unaligned_fails (test_ciphertext ++ [x00]%byte) test_key);
    [reflexivity | cbn; discriminate].
Defined.

(** X18.  Blocks are processed independently (ECB): when the first part of
    a message is a whole number of blocks, the ciphertext of the message is
    the block-by-block encryption of that part followed by the ciphertext
    of the rest; this holds for every key, errors included. *)
Theorem encrypt_blockwise (m1 m2 key : bytes) :
  length m1 mod 16 = 0 ->
  AesEncrypt.encrypt (m1 ++ m2) key
  = (c1 <- AesEncrypt.encrypt_blocks m1 key ;;
     c2 <- AesEncrypt.encrypt m2 key ;;
     Ok (c1 ++ c2)).
Proof.
  intros M.
  destruct (pad_total m2) as (b & Hb & E2).
  destruct (pad_total (m1 ++ m2)) as (b' & Hb' & E12).
  assert (P : AesEncrypt.padding_len (m1 ++ m2) = AesEncrypt.padding_len m2).
  { unfold AesEncrypt.padding_len, AesEncrypt.block_size. rewrite length_app.
    pose proof (Nat.div_mod_eq (length m1) 16) as D. rewrite M in D.
    replace (length m1 + length m2)
      with (length m2 + (length m1 / 16) * 16) by lia.
    rewrite Nat.Div0.mod_add. reflexivity. }
  rewrite P in Hb', E12.
  assert (b' = b) as ->.
  { pose proof (Byte.of_to_N b) as Q. pose proof (Byte.of_to_N b') as Q'.
    rewrite Hb in Q. rewrite Hb' in Q'. congruence. }
  unfold AesEncrypt.encrypt. rewrite E12, E2. cbn [bind].
  rewrite !encrypt_blocks_loop, <- app_assoc.
  apply (block_loop_app _ (length m1 / 16)).
  pose proof (Nat.div_mod_eq (length m1) 16). lia.
Qed.

Lemma encrypt_blockwise_witness :
  length test_plaintext mod 16 = 0 /\
  AesEncrypt.encrypt (test_plaintext ++ [x48; x69]%byte) test_key
  = (c1 <- AesEncrypt.encrypt_blocks test_plaintext test_key ;;
     c2 <- AesEncrypt.encrypt [x48; x69]%byte test_key ;;
     Ok (c1 ++ c2)).
Proof.
  split; [reflexivity|].
  apply (encrypt_blockwise test_plaintext [x48; x69]%byte test_key). reflexivity.
Defined.

Section ReverseRoundTrip.

Variable rks : list state.
Hypothesis rks_ok : Forall (fun k => is_state k = true) rks.

Lemma unhalf_undone : undoes unhalf half.
Proof. exact (@undoes_andthen _ _ _ _ inv_shift_rows_undone inv_sub_bytes_undone). Qed.

(** The encryption rounds, run over the round numbers in reverse, take the
    image under InvShiftRows and InvSubBytes of the state the decryption
    rounds end in back to the image of the state they started from. *)
Lemma dec_rounds_undone (rs : list nat) :
  forall t u,
    Forall (fun r => r < length rks) rs ->
    is_state t = true -> unhalf t = Ok u ->
    exists t' u',
      foldM (AesDecrypt.round rks) rs t = Ok t' /\ is_state t' = true /\
      unhalf t' = Ok u' /\
      foldM (AesEncrypt.round rks) (rev rs) u' = Ok u.
Proof.
  induction rs as [|r rs IH]; intros t u Hrs Ht Hu.
  - exists t, u. cbn [foldM rev]. auto.
  - inversion Hrs as [|? ? Hr Hrs']; subst.
    destruct (unhalf_undone t Ht) as (u0 & Eu & Hu0 & Hh).
    rewrite Eu in Hu. injection Hu as <-.
    destruct (@round_key_lookup rks rks_ok r Hr) as (k & Ek & Hk).
    destruct (@dec_add_round_key_undone k Hk u0 Hu0) as (m & Em & Hm & Um).
    destruct (inv_mix_columns_undone m Hm) as (t1 & Et1 & Ht1 & Mt1).
    destruct (unhalf_undone t1 Ht1) as (u1 & Eu1 & Hu1 & Hh1).
    destruct (IH t1 u1 Hrs' Ht1 Eu1) as (t' & u' & E' & Ht' & Eu' & D').
    exists t', u'. split; [|split; [exact Ht' | split; [exact Eu'|]]].
    + cbn [foldM]. rewrite dec_round_eq, Eu. cbn [bind].
      rewrite Ek. cbn [bind]. rewrite Em. cbn [bind]. rewrite Et1. cbn [bind].
      exact E'.
    + cbn [rev]. rewrite foldM_app, D'. cbn [bind foldM].
      rewrite enc_round_eq, Hh1. cbn [bind]. rewrite Mt1. cbn [bind].
      rewrite Ek. cbn [bind]. rewrite Um. reflexivity.
Qed.

End ReverseRoundTrip.

Section ReverseBlocks.

(** Decryption followed by encryption is the identity on 16-byte blocks. *)
Lemma decrypt_block_inverted (ciphertext key : bytes) :
  length ciphertext = 16 -> length key = 16 ->
  exists p, AesDecrypt.decrypt_block ciphertext key = Ok p /\
            length p = 16 /\
            AesEncrypt.encrypt_block p key = Ok ciphertext.
Proof.
  intros LC LK.
  destruct (@key_expansion_total key LK) as (rks & EK & Lr & W).
  destruct (@bytes_to_state_total ciphertext LC) as (c & Eb & Hc & Sb).
  destruct (@round_key_lookup rks W 0) as (k0 & Ek0 & Hk0); [lia|].
  destruct (@round_key_lookup rks W AesEncrypt.Nr) as (k10 & Ek10 & Hk10);
    [rewrite Lr; cbv [AesEncrypt.Nr]; lia|].
  destruct (@dec_add_round_key_undone k10 Hk10 c Hc) as (t10 & Et10 & Ht10 & Ut10).
  destruct (unhalf_undone t10 Ht10) as (u10 & Eu10 & Hu10 & Hh10).
  destruct (@dec_rounds_undone rks W (rev (range2 1 AesEncrypt.Nr)) t10 u10)
    as (t1 & u1 & Er & Ht1 & Eu1 & Dr); [|exact Ht10 | exact Eu10 |].
  { apply Forall_rev, round_numbers_lt, Lr. }
  rewrite rev_involutive in Dr.
  destruct (unhalf_undone t1 Ht1) as (u1' & Eu1' & Hu1 & _).
  rewrite Eu1 in Eu1'. injection Eu1' as <-.
  destruct (@dec_add_round_key_undone k0 Hk0 u1 Hu1) as (p & Ep & Hp & Up).
  destruct (@state_to_bytes_total p Hp) as (pb & Epb & Lpb & Bpb).
  exists pb. split; [|split; [exact Lpb|]].
  - rewrite decrypt_block_eq, EK. cbn [bind]. rewrite Eb. cbn [bind].
    rewrite Ek10. cbn [bind]. rewrite Et10. cbn [bind]. rewrite Er. cbn [bind].
    rewrite Eu1. cbn [bind]. rewrite Ek0. cbn [bind]. rewrite Ep. cbn [bind].
    exact Epb.
  - rewrite encrypt_block_eq, EK. cbn [bind]. rewrite Bpb. cbn [bind].
    rewrite Ek0. cbn [bind]. rewrite Up. cbn [bind]. rewrite Dr. cbn [bind].
    rewrite Hh10. cbn [bind]. rewrite Ek10. cbn [bind]. rewrite Ut10. cbn [bind].
    exact Sb.
Qed.

Lemma blocks_decrypted_inverted (key : bytes) (blocks : list bytes) :
  length key = 16 ->
  Forall (fun b : bytes => length b = 16) blocks ->
  exists outs,
    Forall2 (fun c p => length c = 16 /\ AesDecrypt.decrypt_block c key = Ok p)
            blocks outs /\
    Forall2 (fun p c => length p = 16 /\ AesEncrypt.encrypt_block p key = Ok c)
            outs blocks.
Proof.
  intros LK. induction 1 as [|b blocks Lb _ (outs & F1 & F2)].
  - exists []. split; constructor.
  - destruct (decrypt_block_inverted b key Lb LK) as (o & Eo & Lo & Do).
    exists (o :: outs). split; constructor; auto.
Qed.

End ReverseBlocks.

Lemma all_equal_repeat {A : Type} (x : A) (l : list A) (n : nat) :
  length l = n -> Forall (fun b => b = x) l -> l = repeat x n.
Proof.
  intros <- F. induction F as [|b l -> _ IH]; cbn [length repeat].
  - reflexivity.
  - rewrite <- IH. reflexivity.
Qed.

(** X19.  The block cipher is a bijection on 16-byte blocks: under a
    16-byte key [decrypt_block] returns a 16-byte block that [encrypt_block]
    takes back to the ciphertext block, and two plaintext blocks with the
    same ciphertext block are equal. *)
Theorem block_cipher_bijective (ciphertext p1 p2 c key : bytes) :
  length key = 16 ->
  (length ciphertext = 16 ->
   exists p, AesDecrypt.decrypt_block ciphertext key = Ok p /\
             length p = 16 /\
             AesEncrypt.encrypt_block p key = Ok ciphertext) /\
  (length p1 = 16 -> length p2 = 16 ->
   AesEncrypt.encrypt_block p1 key = Ok c ->
   AesEncrypt.encrypt_block p2 key = Ok c -> p1 = p2).
Proof.
  intros LK. split.
  - intros LC. exact (decrypt_block_inverted ciphertext key LC LK).
  - intros L1 L2 E1 E2.
    destruct (@encrypt_block_inverted p1 key L1 LK) as (c1 & F1 & _ & D1).
    destruct (@encrypt_block_inverted p2 key L2 LK) as (c2 & F2 & _ & D2).
    rewrite E1 in F1. rewrite E2 in F2.
    injection F1 as <-. injection F2 as <-. congruence.
Qed.

Lemma block_cipher_bijective_witness :
  length test_key = 16 /\ length test_ciphertext = 16 /\
  exists p, AesDecrypt.decrypt_block test_ciphertext test_key = Ok p /\
            length p = 16 /\
            AesEncrypt.encrypt_block p test_key = Ok test_ciphertext.
Proof.
  split; [reflexivity | split; [reflexivity|]].
  apply (proj1 (block_cipher_bijective test_ciphertext [] [] [] test_key eq_refl)).
  reflexivity.
Defined.

(** X20.  Distinct messages never share a ciphertext: under a 16-byte key,
    two messages that [encrypt] maps to the same ciphertext are equal. *)
Theorem encrypt_injective (m1 m2 c key : bytes) :
  length key = 16 ->
  AesEncrypt.encrypt m1 key = Ok c -> AesEncrypt.encrypt m2 key = Ok c ->
  m1 = m2.
Proof.
  intros LK E1 E2.
  destruct (@encrypt_total m1 key LK)
    as (b1 & bl1 & o1 & Hb1 & P1 & _ & _ & G1 & F1).
  destruct (@encrypt_total m2 key LK)
    as (b2 & bl2 & o2 & Hb2 & P2 & _ & _ & G2 & F2).
  rewrite E1 in F1. rewrite E2 in F2. injection F1 as C1. injection F2 as C2.
  assert (D1 : AesDecrypt.decrypt_blocks c key = Ok (concat bl1)).
  { rewrite C1, decrypt_blocks_loop. apply block_loop_concat, G1. }
  assert (D2 : AesDecrypt.decrypt_blocks c key = Ok (concat bl2)).
  { rewrite C2, decrypt_blocks_loop. apply block_loop_concat, G2. }
  rewrite D1 in D2. injection D2 as Q. rewrite <- P1, <- P2 in Q.
  pose proof (@remove_padding_pad m1 b1 _ (proj1 (padding_len_bounds m1)) Hb1) as R1.
  pose proof (@remove_padding_pad m2 b2 _ (proj1 (padding_len_bounds m2)) Hb2) as R2.
  rewrite Q in R1. rewrite R1 in R2. injection R2 as ->. reflexivity.
Qed.

Lemma encrypt_injective_witness :
  let c := [xdf; xf2; x68; x22; xcb; xbb; x32; xb7;
            xc4; x6f; xcd; x0a; xcb; xdb; x65; x03]%byte in
  length test_key = 16 /\
  AesEncrypt.encrypt [x48; x69]%byte test_key = Ok c /\
  [x48; x69]%byte = [x48; x69]%byte.
Proof.
  intros c. split; [reflexivity | split; [vm_compute; reflexivity|]].
  apply (encrypt_injective [x48; x69]%byte [x48; x69]%byte c test_key);
    [reflexivity | vm_compute; reflexivity | vm_compute; reflexivity].
Defined.

(** X21.  The other message round trip: on a non-empty block-aligned
    ciphertext under a 16-byte key, when the decrypted buffer has a
    well-formed trailer, [encrypt] of what [decrypt] returns is the
    ciphertext again; when the trailer is malformed, it is not (the
    re-encryption is one block longer). *)
Theorem encrypt_undoes_decrypt (ciphertext key : bytes) :
  length key = 16 -> ciphertext <> [] -> length ciphertext mod 16 = 0 ->
  exists buf m,
    AesDecrypt.decrypt_blocks ciphertext key = Ok buf /\
    AesDecrypt.decrypt ciphertext key = Ok m /\
    (trailer_malformed buf = false ->
     AesEncrypt.encrypt m key = Ok ciphertext) /\
    (trailer_malformed buf = true ->
     exists c, AesEncrypt.encrypt m key = Ok c /\
               length c = length ciphertext + 16).
Proof.
  intros LK NE LC.
  destruct (@blocks_of (length ciphertext / 16) ciphertext) as (blocks & E & Lb & F).
  { pose proof (Nat.div_mod_eq (length ciphertext) 16). lia. }
  destruct (blocks_decrypted_inverted key blocks LK F) as (outs & F1 & F2).
  assert (Db : AesDecrypt.decrypt_blocks ciphertext key = Ok (concat outs)).
  { rewrite decrypt_blocks_loop, E. apply block_loop_concat, F1. }
  assert (Fo : Forall (fun b : bytes => length b = 16) outs).
  { exact (proj1 (@Forall2_length_16 _ outs blocks F2)). }
  assert (Lo : length (concat outs) = length ciphertext).
  { rewrite E, (@length_concat_blocks outs Fo), (@length_concat_blocks blocks F).
    f_equal. exact (proj2 (@Forall2_length_16 _ outs blocks F2)). }
  assert (NEo : concat outs <> []).
  { intros Z. rewrite Z in Lo. destruct ciphertext; [apply NE; reflexivity|].
    discriminate Lo. }
  assert (Eo : AesEncrypt.encrypt_blocks (concat outs) key = Ok ciphertext).
  { rewrite encrypt_blocks_loop, E. apply block_loop_concat, F2. }
  set (buf := concat outs) in *.
  exists buf, (if trailer_malformed buf then buf else strip_trailer buf).
  split; [exact Db | split; [|split]].
  - unfold AesDecrypt.decrypt. rewrite Db. cbn [bind].
    apply (@remove_padding_spec buf NEo).
  - intros M. rewrite M.
    unfold trailer_malformed in M. apply orb_false_iff in M.
    destruct M as (M1 & M3). apply orb_false_iff in M1. destruct M1 as (M1 & M2).
    apply negb_false_iff in M3. apply N.ltb_ge in M2. apply N.eqb_neq in M1.
    rewrite forallb_forall in M3. rewrite last_bytes_eq in M3.
    set (n := N.to_nat (trailing_byte buf)) in *.
    assert (Hn : 1 <= n <= 16) by (unfold n; lia).
    assert (Lbuf : 16 <= length buf).
    { rewrite Lo. destruct ciphertext; [exfalso; apply NE; reflexivity|].
      pose proof (Nat.div_mod_eq (length (b :: ciphertext)) 16) as Q.
      cbn [length] in *. lia. }
    assert (Split : buf = strip_trailer buf ++ repeat (last buf x00) n).
    { rewrite strip_trailer_eq. fold n. unfold slice_to_neg.
      rewrite <- (firstn_skipn (length buf - n) buf) at 1. f_equal.
      apply all_equal_repeat.
      - rewrite length_skipn. lia.
      - apply Forall_forall. intros b Hb.
        pose proof (M3 b Hb) as Q. apply N.eqb_eq in Q.
        unfold trailing_byte in Q.
        pose proof (Byte.of_to_N b) as Q1.
        pose proof (Byte.of_to_N (last buf x00)) as Q2. congruence. }
    assert (Ls : length (strip_trailer buf) = length buf - n).
    { rewrite strip_trailer_eq. unfold slice_to_neg. fold n.
      rewrite length_firstn. lia. }
    assert (Pl : AesEncrypt.padding_len (strip_trailer buf) = n).
    { unfold AesEncrypt.padding_len, AesEncrypt.block_size. rewrite Ls, Lo.
      pose proof (Nat.div_mod_eq (length ciphertext) 16) as Q.
      rewrite LC in Q. rewrite Lo in Lbuf.
      replace (length ciphertext - n)
        with ((16 - n) + (length ciphertext / 16 - 1) * 16) by lia.
      rewrite Nat.Div0.mod_add.
      destruct (Nat.eq_dec n 16) as [->|Hne]; [reflexivity|].
      rewrite Nat.mod_small by lia. lia. }
    destruct (pad_total (strip_trailer buf)) as (b & Hb & Ep).
    rewrite Pl in Hb, Ep.
    assert (b = last buf x00) as ->.
    { pose proof (Byte.of_to_N b) as Q1.
      pose proof (Byte.of_to_N (last buf x00)) as Q2.
      fold (trailing_byte buf) in Q2. rewrite Hb in Q1.
      unfold n in Q1. rewrite N2Nat.id in Q1. congruence. }
    unfold AesEncrypt.encrypt. rewrite Ep. cbn [bind]. rewrite <- Split. exact Eo.
  - intros M. rewrite M.
    destruct (pad_total buf) as (b & Hb & Ep).
    assert (Pl : AesEncrypt.padding_len buf = 16).
    { unfold AesEncrypt.padding_len, AesEncrypt.block_size. rewrite Lo, LC.
      reflexivity. }
    rewrite Pl in Ep.
    destruct (@encrypt_block_inverted (repeat b 16) key (repeat_length b 16) LK)
      as (o & Er & Lo' & _).
    exists (ciphertext ++ o). split.
    + unfold AesEncrypt.encrypt. rewrite Ep. cbn [bind].
      rewrite encrypt_blocks_loop.
      rewrite (block_loop_app _ (length ciphertext / 16))
        by (rewrite Lo; pose proof (Nat.div_mod_eq (length ciphertext) 16); lia).
      rewrite <- encrypt_blocks_loop, Eo. cbn [bind].
      rewrite (block_loop_step _ (repeat b 16)) by discriminate.
      rewrite firstn_all2 by (rewrite repeat_length; lia).
      rewrite Er. cbn [bind].
      rewrite skipn_all2 by (rewrite repeat_length; lia).
      rewrite block_loop_nil. cbn [bind]. rewrite app_nil_r. reflexivity.
    + rewrite length_app, Lo'. reflexivity.
Qed.

Lemma encrypt_undoes_decrypt_witness :
  length test_key = 16 /\ test_ciphertext <> [] /\
  length test_ciphertext mod 16 = 0 /\
  exists buf m,
    AesDecrypt.decrypt_blocks test_ciphertext test_key = Ok buf /\
    AesDecrypt.decrypt test_ciphertext test_key = Ok m /\
    (trailer_malformed buf = false ->
     AesEncrypt.encrypt m test_key = Ok test_ciphertext) /\
    (trailer_malformed buf = true ->
     exists c, AesEncrypt.encrypt m test_key = Ok c /\
               length c = length test_ciphertext + 16).
Proof.
  split; [reflexivity | split; [discriminate | split; [reflexivity|]]].
  apply (encrypt_undoes_decrypt test_ciphertext test_key);
    [reflexivity | discriminate | reflexivity].
Defined.

Section Pattern.

Lemma pattern_line (row : list N) :
  forall line : DiffAnalysis.str,
    length (fold_left (fun (line : DiffAnalysis.str) (b : N) =>
                         if negb (b =? 0)%N
                         then line ++ ["*"; " "]%char
                         else line ++ ["."; " "]%char) row line)
    = length line + 2 * length row /\
    stars (fold_left (fun (line : DiffAnalysis.str) (b : N) =>
                        if negb (b =? 0)%N
                        then line ++ ["*"; " "]%char
                        else line ++ ["."; " "]%char) row line)
    = stars line + length (filter (fun v : N => negb (v =? 0)%N) row).
Proof.
  induction row as [|b row IH]; intros line; cbn [fold_left filter length].
  - lia.
  - destruct (negb (b =? 0)%N).
    + destruct (IH (line ++ ["*"; " "]%char)) as (L & S). rewrite L, S.
      unfold stars. rewrite filter_app, !length_app. cbn. lia.
    + destruct (IH (line ++ ["."; " "]%char)) as (L & S). rewrite L, S.
      unfold stars. rewrite filter_app, !length_app. cbn. lia.
Qed.

End Pattern.

(** X22.  The difference picture agrees with the counter: it has one line
    per row, each line is two characters of indent and two characters per
    entry, and the number of stars in the picture is the number
    [count_active_bytes] reports. *)
Theorem pattern_shows_active_bytes (st : state) :
  let lines := DiffAnalysis.visualize_diff_pattern st in
  length lines = length st /\
  Forall2 (fun line (row : list N) => length line = 2 + 2 * length row) lines st /\
  stars (concat lines) = DiffAnalysis.count_active_bytes st.
Proof.
  cbv zeta. rewrite count_active_bytes_filter. unfold active_entries.
  unfold DiffAnalysis.visualize_diff_pattern.
  induction st as [|row st (IH1 & IH2 & IH3)]; cbn [map length concat].
  - repeat split. constructor.
  - destruct (pattern_line row [" "; " "]%char) as (L & S).
    split; [rewrite IH1; reflexivity | split].
    + constructor; [exact L | exact IH2].
    + unfold stars in IH3 |- *.
      rewrite (filter_app _ row), (filter_app _ (fold_left _ row _)), !length_app.
      apply (f_equal2 Nat.add); [exact S | exact IH3].
Qed.
